(** * twikit: command matching, message filtering and the module loader

    A shallow embedding of three packages of github.com/twipi/twikit:

    - [twicli]  prefix matchers, commands, subcommand aggregation and
                the reply-on-error wrapper;
    - [twisms]  the message filter predicate;
    - [twid]    the module registry and the loader.

    Go strings are byte strings and are embedded as [string] (a list of
    8-bit characters).  A Go [error] value is [option error], [None]
    being [nil]. *)

From Stdlib Require Import Ascii String.
From stdpp Require Import base option list strings gmap.

Local Open Scope string_scope.
Local Open Scope list_scope.

(** ** Errors *)

(** The error values the packages build: the package-level sentinel
    [ErrNotMatched], leaves made by [errors.New], and [errors.Wrap]
    chains.  [errors.New] leaves are identified by their message. *)
Inductive error : Type :=
| ErrNotMatched
| errors_New (msg : string)
| errors_Wrap (cause : error) (msg : string).

(** [err.Error()]. *)
Fixpoint Error (e : error) : string :=
  match e with
  | ErrNotMatched => "message did not match command"
  | errors_New msg => msg
  | errors_Wrap cause msg => msg +:+ ": " +:+ Error cause
  end.

(** [errors.Is(err, ErrNotMatched)]: walks the chain of causes looking
    for the sentinel; false on [nil]. *)
Fixpoint chain_has_sentinel (e : error) : bool :=
  match e with
  | ErrNotMatched => true
  | errors_New _ => false
  | errors_Wrap cause _ => chain_has_sentinel cause
  end.

Definition errors_Is_ErrNotMatched (err : option error) : bool :=
  match err with
  | None => false
  | Some e => chain_has_sentinel e
  end.

(** ** Text helpers of the Go standard library *)

Definition is_upper (c : ascii) : bool :=
  let n := nat_of_ascii c in ((65 <=? n) && (n <=? 90))%nat.

(** [strings.ToLower] on one byte.  Only the ASCII letters are folded;
    bytes of multi-byte runes are left as they are. *)
Definition lower_byte (c : ascii) : ascii :=
  if is_upper c then ascii_of_nat (nat_of_ascii c + 32) else c.

Fixpoint ToLower (s : string) : string :=
  match s with
  | EmptyString => EmptyString
  | String c s' => String (lower_byte c) (ToLower s')
  end.

(** [strings.EqualFold] on ASCII text. *)
Definition EqualFold (s t : string) : bool :=
  bool_decide (ToLower s = ToLower t).

(** ASCII white space, as [unicode.IsSpace] sees it. *)
Definition isSpace (c : ascii) : bool :=
  let n := nat_of_ascii c in
  ((n =? 32) || ((9 <=? n) && (n <=? 13)))%nat.

(** ** The transport's message and client, as the command engine uses them *)

Module twipi.

Record Message : Type := mkMessage {
  From : string;
  To : string;
  Body : string;
}.

(** [*twipi.Client]: only [ReplySMS] is called.  [W] is the state of
    the world outside the command engine (sent texts and the like). *)
Record Client (W : Type) : Type := mkClient {
  ReplySMS : Message -> string -> W -> option error * W;
}.
Arguments ReplySMS {W} _ _ _ _.

End twipi.

(** The attributes handed to the structured logger. *)
Inductive attr : Type :=
| attr_err (e : error)
| attr_str (s : string).

(** A [context.Context], reduced to the logger [slogctx.From] finds in
    it; cancellation plays no part in the functions embedded here. *)
Record Context (W : Type) : Type := mkContext {
  ErrorContext : string -> list (string * attr) -> W -> W;
}.
Arguments ErrorContext {W} _ _ _ _.

Module twicli.

(** ** Splitting off the first word *)

Fixpoint dropSpace (s : string) : string :=
  match s with
  | EmptyString => EmptyString
  | String c s' => if isSpace c then dropSpace s' else s
  end.

Fixpoint spanWord (s : string) : string * string :=
  match s with
  | EmptyString => (EmptyString, EmptyString)
  | String c s' =>
      if isSpace c then (EmptyString, s)
      else let (w, r) := spanWord s' in (String c w, r)
  end.

(** Modelled from the spec: [PopFirstWord], which the matchers call and
    whose body is not part of the sources at hand.  Following the spec
    ("the first whitespace-delimited token", "returns the rest", "one
    word split") it skips leading white space, takes the maximal run of
    non-space bytes as the first word and returns what follows the
    separating white space; it fails when the body holds no word. *)
Definition PopFirstWord (msg : string) : string * string * option error :=
  let (first, rest) := spanWord (dropSpace msg) in
  match first with
  | EmptyString => ("", "", Some (errors_New "no words"))
  | _ => (first, dropSpace rest, None)
  end.

(** ** Prefix matchers *)

Definition PrefixFunc : Type := string -> string * bool.

Definition NewNaturalPrefix (name : string) : PrefixFunc :=
  let prefix := ToLower name +:+ "," in
  fun msg =>
    match PopFirstWord msg with
    | (_, _, Some _) => ("", false)
    | (first, tail, None) =>
        if bool_decide (ToLower first <> prefix) then ("", false)
        else (tail, true)
    end.

Definition NewSlashPrefix (name : string) : PrefixFunc :=
  let prefix := "/" +:+ name in
  fun msg =>
    match PopFirstWord msg with
    | (_, _, Some _) => ("", false)
    | (first, tail, None) =>
        if bool_decide (first <> prefix) then ("", false)
        else (tail, true)
    end.

Definition NewWordPrefix (word : string) (cased : bool) : PrefixFunc :=
  fun msg =>
    match PopFirstWord msg with
    | (_, _, Some _) => ("", false)
    | (first, tail, None) =>
        let ok := if cased then bool_decide (first = word)
                  else EqualFold first word in
        (tail, ok)
    end.

Fixpoint CombinePrefixes (prefixes : list PrefixFunc) : PrefixFunc :=
  fun msg =>
    match prefixes with
    | [] => ("", false)
    | prefix :: rest =>
        let (body, ok) := prefix msg in
        if ok then (body, true) else CombinePrefixes rest msg
    end.

(** ** Commands *)

(** [Message] wraps the transport's message and adds the body that is
    stripped while descending a command tree. *)
Record Message : Type := mkMessage {
  Message_twipi : twipi.Message;
  Body : string;
}.

Definition withBody (msg : Message) (body : string) : Message :=
  {| Message_twipi := Message_twipi msg; Body := body |}.

Section Commands.

(** The world the actions act on.  An action is a state transformer
    that also returns its error. *)
Context {W : Type}.

Definition ActionFunc : Type := Context W -> Message -> W -> option error * W.

Record Command : Type := mkCommand {
  Prefix : PrefixFunc;
  Action : ActionFunc;
}.

Definition Do (c : Command) (ctx : Context W) (msg : Message)
  : W -> option error * W :=
  fun w =>
    let (body, ok) := Prefix c (Body msg) in
    if ok then Action c ctx (withBody msg body) w
    else (Some ErrNotMatched, w).

Fixpoint Subcommands (cmds : list Command) : ActionFunc :=
  fun ctx msg w =>
    match cmds with
    | [] => (Some ErrNotMatched, w)
    | cmd :: rest =>
        let (err, w1) := Do cmd ctx msg w in
        if errors_Is_ErrNotMatched err then Subcommands rest ctx msg w1
        else match err with
             | Some e => (Some e, w1)
             | None => (None, w1)
             end
    end.

Definition ErrorMessage (err : option error) : string :=
  match err with
  | None => ""
  | Some e =>
      if errors_Is_ErrNotMatched err then "Sorry! I'm not sure what you mean."
      else "Sorry, an error occured: " +:+ Error e
  end.

Definition DoAndReply (c : Command) (ctx : Context W)
    (cli : twipi.Client W) (msg : twipi.Message) : W -> W :=
  fun w =>
    let (err, w1) := Do c ctx (mkMessage msg (twipi.Body msg)) w in
    match err with
    | None => w1
    | Some _ =>
        let errBody := ErrorMessage err in
        let (rerr, w2) := twipi.ReplySMS cli msg errBody w1 in
        match rerr with
        | None => w2
        | Some re =>
            ErrorContext ctx "cannot reply with error message"
              [("do_err", attr_err re);
               ("reply_err", attr_err re);
               ("from", attr_str (twipi.From msg));
               ("to", attr_str (twipi.To msg))] w2
        end
    end.

End Commands.

Arguments Command : clear implicits.
Arguments ActionFunc : clear implicits.

End twicli.

(** ** Message filters *)

Module twisms.

(** The generated message types.  Pointers may be nil, and the generated
    getters answer the zero value on a nil receiver. *)
Record Message : Type := mkMessage {
  From : string;
  To : string;
  Body : string;
}.

Definition GetFrom (msg : option Message) : string :=
  match msg with Some m => From m | None => "" end.

Definition GetTo (msg : option Message) : string :=
  match msg with Some m => To m | None => "" end.

(** The [oneof] of a filter: one of the two cases, or unset. *)
Inductive isMessageFilter_Filter : Type :=
| MessageFilter_MatchFrom (MatchFrom : string)
| MessageFilter_MatchTo (MatchTo : string).

Record MessageFilter : Type := mkMessageFilter {
  Filter : option isMessageFilter_Filter;
}.

Definition GetFilter (f : option MessageFilter) : option isMessageFilter_Filter :=
  match f with Some f => Filter f | None => None end.

Record MessageFilters : Type := mkMessageFilters {
  Filters : list (option MessageFilter);
}.

Definition GetFilters (fs : option MessageFilters) : list (option MessageFilter) :=
  match fs with Some fs => Filters fs | None => [] end.

(** The body of the loop of [FilterMessage] over the filters left. *)
Fixpoint filterLoop (fs : list (option MessageFilter)) (msg : option Message) : bool :=
  match fs with
  | [] => true
  | filter :: rest =>
      match GetFilter filter with
      | Some (MessageFilter_MatchFrom from) =>
          if bool_decide (GetFrom msg <> from) then false
          else filterLoop rest msg
      | Some (MessageFilter_MatchTo to) =>
          if bool_decide (GetTo msg <> to) then false
          else filterLoop rest msg
      | None => filterLoop rest msg
      end
  end.

Definition FilterMessage (filters : option MessageFilters) (msg : option Message) : bool :=
  filterLoop (GetFilters filters) msg.

End twisms.

(** ** The module registry and the loader *)

Module twid.

(** What a call does: it returns, or it panics (a fault that unwinds the
    caller). *)
Inductive outcome (A : Type) : Type :=
| Returns (a : A)
| Panics (reason : string).
Arguments Returns {A} _.
Arguments Panics {A} _.

(** An opaque value of type [any]: here, the pointer to a module's
    configuration block, known by a label. *)
Inductive any : Type := any_ptr (label : string).

(** [*twipi.ConfiguredServer], reduced to what the loader inspects:
    whether its [Message] handler is set. *)
Record ConfiguredServer : Type := mkConfiguredServer {
  Message_set : bool;
}.

(** A [Handler] value with the optional interfaces it satisfies.
    [Config] is what [Config()] returns ([None] for nil); the flags say
    whether the dynamic type also implements [TwipiHandler],
    [CommandHandler] and [MessageHandler]; [HTTPPrefix] is set when it
    implements [HTTPCommander].  [bound] is the server [BindTwipi] was
    last called with. *)
Record Handler : Type := mkHandler {
  Config : option any;
  isTwipiHandler : bool;
  isCommandHandler : bool;
  isMessageHandler : bool;
  HTTPPrefix : option string;
  bound : option ConfiguredServer;
}.

Definition BindTwipi (h : Handler) (srv : ConfiguredServer) : Handler :=
  {| Config := Config h; isTwipiHandler := isTwipiHandler h;
     isCommandHandler := isCommandHandler h;
     isMessageHandler := isMessageHandler h;
     HTTPPrefix := HTTPPrefix h; bound := Some srv |}.

Record Module : Type := mkModule {
  Name : string;
  New : unit -> Handler;
}.

Definition illegalNames : list string := ["twid"; "twipi"].

(** The loop of [Register] over the illegal names left: the panic
    message of the first one that equals the module's name. *)
Fixpoint illegalLoop (names : list string) (mod_ : Module) : option string :=
  match names with
  | [] => None
  | illegalName :: rest =>
      if bool_decide (Name mod_ = illegalName)
      then Some ("illegal module name: " +:+ illegalName)
      else illegalLoop rest mod_
  end.

(** [Register], with the package variable [modules] passed in and out. *)
Definition Register (mod_ : Module) (modules : list Module) : outcome (list Module) :=
  match illegalLoop illegalNames mod_ with
  | Some reason => Panics reason
  | None => Returns (modules ++ [mod_])
  end.

(** A run of [Register] calls, in order; the first panic ends it. *)
Fixpoint RegisterAll (mods : list Module) (modules : list Module)
  : outcome (list Module) :=
  match mods with
  | [] => Returns modules
  | mod_ :: rest =>
      match Register mod_ modules with
      | Panics reason => Panics reason
      | Returns modules' => RegisterAll rest modules'
      end
  end.

(** The routes of a [*chi.Mux]: pattern and the name of what serves it.
    The router's own checks of a pattern are outside this model. *)
Record Mux : Type := mkMux {
  routes : list (string * string);
}.

Definition Mux_Handle (m : Mux) (pattern owner : string) : Mux :=
  {| routes := routes m ++ [(pattern, owner)] |}.

(** [*http.Server]; its [Handler] is the loader's mux. *)
Record Server : Type := mkServer {
  Addr : string;
}.

Section Loader.

(** [twipi.Config] and the collaborators of the loader that live in
    other packages. *)
Variable TwipiConfig : Type.

(** What one parse of the document leaves in the loader's own section
    and in the per-module enable blocks. *)
Record Parsed : Type := mkParsed {
  parsed_ListenAddr : string;
  parsed_Twipi : TwipiConfig;
  parsed_enabledBlocks : gmap string bool;
}.

Variable ParseMany : string -> string -> list any -> error + Parsed.
Variable NewConfiguredServer : TwipiConfig -> error + ConfiguredServer.
Variable EnvString_Value : string -> string.
Variable path_Join : string -> string -> string.

(** The order in which a [range] over the handler map visits it; Go
    leaves it unspecified. *)
Variable rangeHandlers : gmap string Handler -> list (string * Handler).

Record Loader : Type := mkLoader {
  Config_Twid_HTTP_ListenAddr : string;
  Config_Twipi : option TwipiConfig;
  handlers : gmap string Handler;
  enabled : gmap string bool;
  mux : option Mux;
  http : option Server;
  twipi : option ConfiguredServer;
}.

(** [l.enabled[name]]: a missing key reads as [false]. *)
Definition isEnabled (l : Loader) (name : string) : bool :=
  default false (enabled l !! name).

Definition NewLoader (modules : list Module) : Loader :=
  {| Config_Twid_HTTP_ListenAddr := "";
     Config_Twipi := None;
     handlers := foldl (fun hs module => <[Name module := New module tt]> hs)
                       ∅ modules;
     enabled := ∅;
     mux := None; http := None; twipi := None |}.

Definition NewGlobalLoader (modules : list Module) : Loader :=
  NewLoader modules.

(** *** LoadConfig *)

Definition setParsed (l : Loader) (doc : Parsed) : Loader :=
  {| Config_Twid_HTTP_ListenAddr := parsed_ListenAddr doc;
     Config_Twipi := Some (parsed_Twipi doc);
     handlers := handlers l;
     enabled := parsed_enabledBlocks doc ∪ enabled l;
     mux := mux l; http := http l; twipi := twipi l |}.

Definition bindLoop (l : Loader) (srv : ConfiguredServer)
  : gmap string Handler :=
  foldl (fun hs '(name, handler) =>
           if negb (isEnabled l name) then hs
           else if isTwipiHandler handler
                then <[name := BindTwipi handler srv]> hs
                else hs)
        (handlers l) (rangeHandlers (handlers l)).

Definition setTwipi (l : Loader) (srv : ConfiguredServer) : Loader :=
  {| Config_Twid_HTTP_ListenAddr := Config_Twid_HTTP_ListenAddr l;
     Config_Twipi := Config_Twipi l;
     handlers := bindLoop l srv;
     enabled := enabled l;
     mux := mux l; http := http l; twipi := Some srv |}.

Definition mountLoop (l : Loader) (m : Mux) : Mux :=
  foldl (fun m '(name, handler) =>
           if negb (isEnabled l name) then m
           else match HTTPPrefix handler with
                | Some prefix => Mux_Handle m (path_Join prefix "*") name
                | None => m
                end)
        m (rangeHandlers (handlers l)).

Definition setHTTP (l : Loader) : Loader :=
  {| Config_Twid_HTTP_ListenAddr := Config_Twid_HTTP_ListenAddr l;
     Config_Twipi := Config_Twipi l;
     handlers := handlers l;
     enabled := enabled l;
     mux := Some (mountLoop l (mkMux []));
     http := Some (mkServer (EnvString_Value (Config_Twid_HTTP_ListenAddr l)));
     twipi := twipi l |}.

Definition setMux (l : Loader) (m : Mux) : Loader :=
  {| Config_Twid_HTTP_ListenAddr := Config_Twid_HTTP_ListenAddr l;
     Config_Twipi := Config_Twipi l;
     handlers := handlers l;
     enabled := enabled l;
     mux := Some m; http := http l; twipi := twipi l |}.

(** [l.mux.Mount("/", l.twipi)]: the method reads the router's tree,
    so a nil receiver is a nil-pointer dereference. *)
Definition Mount_twipi (l : Loader) : outcome Loader :=
  match mux l with
  | None => Panics "invalid memory address or nil pointer dereference"
  | Some m => Returns (setMux l (Mux_Handle m "/" "twipi"))
  end.

(** [LoadConfig] returns its error and leaves the loader changed. *)
Definition LoadConfig (l : Loader) (b configType : string)
  : outcome (option error * Loader) :=
  let configs := omap (fun '(_, handler) => Config handler)
                      (rangeHandlers (handlers l)) in
  match ParseMany b configType configs with
  | inl err => Returns (Some (errors_Wrap err "failed to parse config"), l)
  | inr doc =>
      let l1 := setParsed l doc in
      let bindStep : error + Loader :=
        if isEnabled l1 "twipi" then
          match NewConfiguredServer (parsed_Twipi doc) with
          | inl err => inl (errors_Wrap err "failed to create twipi server")
          | inr twipisrv => inr (setTwipi l1 twipisrv)
          end
        else inr l1 in
      match bindStep with
      | inl err => Returns (Some err, l1)
      | inr l2 =>
          let l3 := if bool_decide (Config_Twid_HTTP_ListenAddr l2 <> "")
                    then setHTTP l2 else l2 in
          match twipi l3 with
          | Some _ =>
              match Mount_twipi l3 with
              | Panics reason => Panics reason
              | Returns l4 => Returns (None, l4)
              end
          | None => Returns (None, l3)
          end
      end
  end.

(** *** Start *)

(** The functions [Start] hands to [errg.Go]. *)
Inductive goroutine : Type :=
| UpdateTwilio
| HTTPListenAndServe (addr : string)
| MessageLoop (name : string)
| CommandLoop (name : string)
| HandlerStart (name : string).

(** How [Start] comes back: with an error of its own, returned before
    it waits, or with whatever [errg.Wait] yields once every function
    handed to the group has returned. *)
Inductive StartResult : Type :=
| ReturnsError (err : error)
| ReturnsWait.

(** The two checks made before a loop over inbound messages is
    started. *)
Definition checkTwipi (l : Loader) : option error :=
  match twipi l with
  | None => Some (errors_New "twipi is not configured")
  | Some srv =>
      if Message_set srv then None
      else Some (errors_New "twipi message handler is not configured")
  end.

(** One round of the loop over the handlers, for an enabled module:
    the goroutines started so far go in, and come out extended,
    together with the error of an early return if there is one. *)
Definition startHandler (l : Loader) (name : string) (handler : Handler)
    (started : list goroutine) : list goroutine * option error :=
  let '(started1, err1) :=
    if isMessageHandler handler then
      match checkTwipi l with
      | Some err => (started, Some err)
      | None => (started ++ [MessageLoop name], None)
      end
    else (started, None) in
  match err1 with
  | Some err => (started1, Some err)
  | None =>
      let '(started2, err2) :=
        if isCommandHandler handler then
          match checkTwipi l with
          | Some err => (started1, Some err)
          | None => (started1 ++ [CommandLoop name], None)
          end
        else (started1, None) in
      match err2 with
      | Some err => (started2, Some err)
      | None => (started2 ++ [HandlerStart name], None)
      end
  end.

Fixpoint startLoop (l : Loader) (hs : list (string * Handler))
    (started : list goroutine) : list goroutine * StartResult :=
  match hs with
  | [] => (started, ReturnsWait)
  | (name, handler) :: rest =>
      if negb (isEnabled l name) then startLoop l rest started
      else match startHandler l name handler started with
           | (started', Some err) => (started', ReturnsError err)
           | (started', None) => startLoop l rest started'
           end
  end.

(** [Start]: the goroutines it has started, in the order of the
    [errg.Go] calls, and how it returns. *)
Definition Start (l : Loader) : list goroutine * StartResult :=
  if negb (isEnabled l "twid") then
    ([], ReturnsError (errors_New "twid is not enabled"))
  else
    let started0 :=
      match twipi l with Some _ => [UpdateTwilio] | None => [] end in
    let started1 :=
      match http l with
      | Some srv => started0 ++ [HTTPListenAndServe (Addr srv)]
      | None => started0
      end in
    startLoop l (rangeHandlers (handlers l)) started1.

End Loader.

End twid.

(** ** Replies, phone numbers and the webhook router *)

(** Go's [regexp], reduced to the constructs the pattern of
    [e164Re] uses.  A matcher consumes a prefix of the text and hands
    the rest to a continuation. *)
Module regexp.

Inductive Regexp : Type :=
| Lit (c : ascii)
| Range (lo hi : ascii)
| Digit
| Cat (r1 r2 : Regexp)
| Rep (r : Regexp) (min max : nat).

Definition in_range (lo hi c : ascii) : bool :=
  ((nat_of_ascii lo <=? nat_of_ascii c) && (nat_of_ascii c <=? nat_of_ascii hi))%nat.

(** [\d]: an ASCII digit. *)
Definition is_digit (c : ascii) : bool := in_range "0" "9" c.

(** One byte of a class, then the rest. *)
Definition classk (p : ascii -> bool) (s : string) (k : string -> bool) : bool :=
  match s with
  | EmptyString => false
  | String c s' => p c && k s'
  end.

(** [f{0, extra}], greedy: one more round of [f] is tried before
    stopping. *)
Fixpoint optionalk (f : string -> (string -> bool) -> bool)
    (extra : nat) (s : string) (k : string -> bool) : bool :=
  match extra with
  | S e => f s (fun s' => optionalk f e s' k) || k s
  | O => k s
  end.

(** [f{min, min+extra}]: [min] rounds of [f], then up to [extra]
    more. *)
Fixpoint repeatk (f : string -> (string -> bool) -> bool)
    (min extra : nat) (s : string) (k : string -> bool) : bool :=
  match min with
  | S n => f s (fun s' => repeatk f n extra s' k)
  | O => optionalk f extra s k
  end.

Fixpoint matchk (r : Regexp) (s : string) (k : string -> bool) : bool :=
  match r with
  | Lit c => classk (fun c' => bool_decide (c' = c)) s k
  | Range lo hi => classk (in_range lo hi) s k
  | Digit => classk is_digit s k
  | Cat r1 r2 => matchk r1 s (fun s' => matchk r2 s' k)
  | Rep r min max => repeatk (matchk r) min (max - min) s k
  end.

(** [MatchString] of a pattern written between [^] and [$]: the whole
    text has to be consumed. *)
Definition MatchString (r : Regexp) (s : string) : bool :=
  matchk r s (fun rest => bool_decide (rest = "")).

End regexp.

Module twisms_reply.

(** [^\+[1-9]\d{1,14}$] *)
Definition e164Re : regexp.Regexp :=
  regexp.Cat (regexp.Lit "+")
    (regexp.Cat (regexp.Range "1" "9") (regexp.Rep regexp.Digit 1 14)).

Definition ErrInvalidPhoneNumber : error :=
  errors_New "invalid phone number, must be E.164 format".

Definition ValidatePhoneNumber (number : string) : option error :=
  if negb (regexp.MatchString e164Re number) then Some ErrInvalidPhoneNumber
  else None.

(** [NewReplyingMessage] reads the fields of [msg] directly, so a nil
    message is a nil-pointer dereference.  The body is carried as its
    text. *)
Definition NewReplyingMessage (msg : option twisms.Message) (body : string)
  : twid.outcome twisms.Message :=
  match msg with
  | None => twid.Panics "invalid memory address or nil pointer dereference"
  | Some m =>
      twid.Returns {| twisms.From := twisms.To m;
                      twisms.To := twisms.From m;
                      twisms.Body := body |}
  end.

Section Senders.

Context {W : Type}.

(** A [MessageSender]; [asMessageReplier] is its [ReplyMessage] method
    when the dynamic type also implements [MessageReplier]. *)
Record MessageSender : Type := mkMessageSender {
  SendMessage : option twisms.Message -> W -> option error * W;
  asMessageReplier :
    option (option twisms.Message -> string -> W -> option error * W);
}.

Definition ReplyMessage (s : MessageSender) (msg : option twisms.Message)
    (body : string) (w : W) : twid.outcome (option error * W) :=
  match asMessageReplier s with
  | Some reply => twid.Returns (reply msg body w)
  | None =>
      match msg with
      | None => twid.Panics "invalid memory address or nil pointer dereference"
      | Some m =>
          let reply := {| twisms.From := twisms.To m;
                          twisms.To := twisms.From m;
                          twisms.Body := body |} in
          twid.Returns (SendMessage s (Some reply) w)
      end
  end.

End Senders.

Arguments MessageSender : clear implicits.

End twisms_reply.

Module twipi_webhook.

Section Router.

Context {W : Type}.

(** A [WebhookRegisterer]: [Mount] adds its routes to a router, [Close]
    acts on the world and may fail. *)
Record WebhookRegisterer : Type := mkWebhookRegisterer {
  Mount : list string -> list string;
  Close : W -> option error * W;
}.

Record WebhookRouter : Type := mkWebhookRouter {
  Mux : list string;
  closers : list WebhookRegisterer;
}.

Definition NewWebhookRouter : WebhookRouter :=
  {| Mux := []; closers := [] |}.

Definition RegisterWebhook (r : WebhookRouter) (registerer : WebhookRegisterer)
  : WebhookRouter :=
  {| Mux := Mount registerer (Mux r);
     closers := closers r ++ [registerer] |}.

(** The loop of [WebhookRouter.Close]: each closer is closed and what
    it returns is dropped. *)
Fixpoint closeLoop (cs : list WebhookRegisterer) (w : W) : W :=
  match cs with
  | [] => w
  | closer :: rest => let (_, w1) := Close closer w in closeLoop rest w1
  end.

Definition WebhookRouter_Close (r : WebhookRouter) (w : W) : option error * W :=
  (None, closeLoop (closers r) w).

End Router.

Arguments WebhookRegisterer : clear implicits.
Arguments WebhookRouter : clear implicits.

End twipi_webhook.

(** * Specification vocabulary *)

(** ** Words of a body *)

Definition all_space (s : string) : Prop :=
  Forall (fun c => isSpace c = true) (list_ascii_of_string s).

Definition no_space (s : string) : Prop :=
  Forall (fun c => isSpace c = false) (list_ascii_of_string s).

(** [starts_word s]: [s] is empty or begins with a byte of a word. *)
Definition starts_word (s : string) : Prop :=
  match s with
  | EmptyString => True
  | String c _ => isSpace c = false
  end.

(** What may follow a word: nothing, or white space first. *)
Definition word_end (after : string) : Prop :=
  after = "" \/ exists c r, after = String c r /\ isSpace c = true.

(** [first_token body tok rest]: [body] is some white space, then the
    non-empty word [tok], and then either nothing or a non-empty run of
    white space followed by [rest], which does not begin with white
    space. *)
Inductive first_token : string -> string -> string -> Prop :=
| first_token_last lead tok tail_space :
    all_space lead -> tok <> "" -> no_space tok -> all_space tail_space ->
    first_token (lead +:+ tok +:+ tail_space) tok ""
| first_token_more lead tok sep rest :
    all_space lead -> tok <> "" -> no_space tok ->
    sep <> "" -> all_space sep -> rest <> "" -> starts_word rest ->
    first_token (lead +:+ tok +:+ sep +:+ rest) tok rest.

(** ** Runs of children of an aggregate *)

Section Runs.

Context {W : Type}.

(** [all_skip ctx msg cmds w w']: run from [w], each command of [cmds]
    in turn answers an error whose chain holds the sentinel, and the
    world is [w'] after the last one. *)
Inductive all_skip (ctx : Context W) (msg : twicli.Message)
  : list (twicli.Command W) -> W -> W -> Prop :=
| all_skip_nil w : all_skip ctx msg [] w w
| all_skip_cons c cs w w1 w2 err :
    twicli.Do c ctx msg w = (err, w1) ->
    errors_Is_ErrNotMatched err = true ->
    all_skip ctx msg cs w1 w2 ->
    all_skip ctx msg (c :: cs) w w2.

End Runs.

(** ** Filters *)

(** What one filter asks of a message. *)
Definition satisfies (msg : option twisms.Message)
    (filter : option twisms.MessageFilter) : Prop :=
  match twisms.GetFilter filter with
  | Some (twisms.MessageFilter_MatchFrom from) => twisms.GetFrom msg = from
  | Some (twisms.MessageFilter_MatchTo to) => twisms.GetTo msg = to
  | None => True
  end.

(** ** Bytes of a text *)

(** Every byte of [s] is in the class [p]. *)
Definition all_bytes (p : ascii -> bool) (s : string) : Prop :=
  Forall (fun c => p c = true) (list_ascii_of_string s).

(** ** What the loader wires up *)

(** A faithful visit of the handler map: the pairs visited are the
    entries of the map. *)
Definition visits_entries
    (rangeHandlers : gmap string twid.Handler -> list (string * twid.Handler))
  : Prop :=
  forall hs name h, (name, h) ∈ rangeHandlers hs <-> hs !! name = Some h.

(** The handler of a module after the transport has been offered to it. *)
Definition offered (on : bool) (srv : twid.ConfiguredServer) (h : twid.Handler)
  : twid.Handler :=
  if on && twid.isTwipiHandler h then twid.BindTwipi h srv else h.

(** The route of an enabled module that serves HTTP. *)
Definition route_of {TwipiConfig : Type} (path_Join : string -> string -> string)
    (l : twid.Loader TwipiConfig) (entry : string * twid.Handler)
  : list (string * string) :=
  if twid.isEnabled TwipiConfig l entry.1 then
    match twid.HTTPPrefix entry.2 with
    | Some prefix => [(path_Join prefix "*", entry.1)]
    | None => []
    end
  else [].

(** The goroutines of one module once the transport is there. *)
Definition goroutines_of {TwipiConfig : Type} (l : twid.Loader TwipiConfig)
    (entry : string * twid.Handler) : list twid.goroutine :=
  if twid.isEnabled TwipiConfig l entry.1 then
    (if twid.isMessageHandler entry.2 then [twid.MessageLoop entry.1] else [])
    ++ (if twid.isCommandHandler entry.2 then [twid.CommandLoop entry.1] else [])
    ++ [twid.HandlerStart entry.1]
  else [].

(** A module that cannot run without the transport. *)
Definition needs_twipi {TwipiConfig : Type} (l : twid.Loader TwipiConfig)
    (entry : string * twid.Handler) : bool :=
  twid.isEnabled TwipiConfig l entry.1
  && (twid.isMessageHandler entry.2 || twid.isCommandHandler entry.2).

(** ** Registration *)

(** A module whose name is none of the reserved ones. *)
Definition legal (m : twid.Module) : Prop := twid.Name m ∉ twid.illegalNames.

(** ** Sample data *)

(** A world that is a journal of what happened, oldest entry first. *)
Definition journal : Type := list string.

Definition sample_ctx : Context journal :=
  {| ErrorContext := fun what _ w => w ++ ["logged: " +:+ what] |}.

(** An action that writes [tag] and the body it was given into the
    journal and answers [result]. *)
Definition noting (tag : string) (result : option error)
  : twicli.ActionFunc journal :=
  fun _ msg w => (result, w ++ [tag +:+ " " +:+ twicli.Body msg]).

Definition cmd_help : twicli.Command journal :=
  twicli.mkCommand (twicli.NewWordPrefix "help" false) (noting "help" None).

Definition cmd_msg_failing : twicli.Command journal :=
  twicli.mkCommand (twicli.NewSlashPrefix "msg")
                   (noting "msg" (Some (errors_New "boom"))).

Definition cmd_msg_late : twicli.Command journal :=
  twicli.mkCommand (twicli.NewSlashPrefix "msg") (noting "late" None).

Definition sample_inbound : twipi.Message :=
  twipi.mkMessage "+15550001" "+15550002" "/msg hi".

Definition sample_msg : twicli.Message :=
  twicli.mkMessage sample_inbound "/msg hi".

(** A client whose replies are written into the journal and succeed. *)
Definition journal_client : twipi.Client journal :=
  {| twipi.ReplySMS := fun msg body w =>
       (None, w ++ ["reply to " +:+ twipi.From msg +:+ ": " +:+ body]) |}.

(** A client whose replies never go out. *)
Definition broken_client : twipi.Client journal :=
  {| twipi.ReplySMS := fun msg body w =>
       (Some (errors_New "no route"), w ++ ["reply failed"]) |}.

(** A filter list asking for sender "A", and a message from "B". *)
Definition filters_from_A : option twisms.MessageFilters :=
  Some (twisms.mkMessageFilters
          [Some (twisms.mkMessageFilter (Some (twisms.MessageFilter_MatchFrom "A")))]).

Definition msg_from_B : option twisms.Message :=
  Some (twisms.mkMessage "B" "C" "hi").

(** A module that handles messages and one that only starts. *)
Definition plain_handler : twid.Handler :=
  twid.mkHandler None false false false None None.

Definition messaging_handler : twid.Handler :=
  twid.mkHandler (Some (twid.any_ptr "discord")) true false true None None.

Definition mod_discord : twid.Module :=
  twid.mkModule "discord" (fun _ => messaging_handler).

Definition mod_discord_again : twid.Module :=
  twid.mkModule "discord" (fun _ => plain_handler).

Definition mod_reserved : twid.Module :=
  twid.mkModule "twipi" (fun _ => plain_handler).

(** The handler map visited in the order of its keys. *)
Definition range_sorted (hs : gmap string twid.Handler)
  : list (string * twid.Handler) := map_to_list hs.

(** A loader whose modules are enabled while "twid" itself is not. *)
Definition loader_without_twid : twid.Loader unit :=
  twid.mkLoader unit "" None
    {[ "discord" := messaging_handler ]}
    {[ "discord" := true; "twipi" := true; "twid" := false ]}
    None None (Some (twid.mkConfiguredServer true)).

(** A document that enables "twid" and "twipi" and names no listen
    address, as the parser hands it over, and a transport constructor
    that accepts its section. *)
Definition doc_no_listen_addr : twid.Parsed unit :=
  twid.mkParsed unit "" tt {[ "twid" := true; "twipi" := true ]}.

Definition parse_no_listen_addr (b configType : string) (configs : list twid.any)
  : error + twid.Parsed unit := inr doc_no_listen_addr.

Definition server_ok (cfg : unit) : error + twid.ConfiguredServer :=
  inr (twid.mkConfiguredServer true).

(** The same document with a listen address. *)
Definition doc_listen_addr : twid.Parsed unit :=
  twid.mkParsed unit ":8080" tt
    {[ "twid" := true; "twipi" := true; "discord" := true ]}.

Definition parse_listen_addr (b configType : string) (configs : list twid.any)
  : error + twid.Parsed unit := inr doc_listen_addr.

(** A loaded loader: "twid" and "discord" enabled, transport and HTTP
    server configured. *)
Definition loader_ready : twid.Loader unit :=
  twid.mkLoader unit ":8080" (Some tt)
    {[ "discord" := messaging_handler ]}
    {[ "discord" := true; "twipi" := true; "twid" := true ]}
    (Some (twid.mkMux [("/", "twipi")])) (Some (twid.mkServer ":8080"))
    (Some (twid.mkConfiguredServer true)).

Definition toml_no_listen_addr : string :=
  "[twid] enable = true [twipi] enable = true".

(** A sender that only sends, and one with the fast path; both write
    into the journal. *)
Definition plain_sender : twisms_reply.MessageSender journal :=
  twisms_reply.mkMessageSender
    (fun msg w => (None, w ++ ["send to " +:+ twisms.GetTo msg]))
    None.

Definition replying_sender : twisms_reply.MessageSender journal :=
  twisms_reply.mkMessageSender
    (fun msg w => (None, w ++ ["send to " +:+ twisms.GetTo msg]))
    (Some (fun msg body w => (None, w ++ ["fast reply: " +:+ body]))).

(** A webhook whose [Close] fails and one whose [Close] succeeds. *)
Definition hook_failing : twipi_webhook.WebhookRegisterer journal :=
  twipi_webhook.mkWebhookRegisterer
    (fun routes => routes ++ ["/sms"])
    (fun w => (Some (errors_New "close failed"), w ++ ["closed sms"])).

Definition hook_fine : twipi_webhook.WebhookRegisterer journal :=
  twipi_webhook.mkWebhookRegisterer
    (fun routes => routes ++ ["/voice"])
    (fun w => (None, w ++ ["closed voice"])).

(** "twid" and two modules enabled, and no transport: "alpha" only
    starts, "discord" handles messages. *)
Definition loader_no_transport : twid.Loader unit :=
  twid.mkLoader unit "" (Some tt)
    {[ "alpha" := plain_handler; "discord" := messaging_handler ]}
    {[ "alpha" := true; "discord" := true; "twid" := true ]}
    None None None.

Definition mod_alpha : twid.Module :=
  twid.mkModule "alpha" (fun _ => plain_handler).

(** A module that serves HTTP under "/web", a document that enables it
    with a listen address, and a parser that fails. *)
Definition web_handler : twid.Handler :=
  twid.mkHandler None false false false (Some "/web") None.

Definition mod_web : twid.Module :=
  twid.mkModule "web" (fun _ => web_handler).

Definition doc_web : twid.Parsed unit :=
  twid.mkParsed unit ":8080" tt
    {[ "twid" := true; "twipi" := true; "web" := true ]}.

Definition parse_web (b configType : string) (configs : list twid.any)
  : error + twid.Parsed unit := inr doc_web.

Definition parse_broken (b configType : string) (configs : list twid.any)
  : error + twid.Parsed unit := inl (errors_New "bad document").

Definition join_slash (a b : string) : string := a +:+ "/" +:+ b.

(** * Properties *)

(** ** The first word of a body *)

Lemma append_String c s t : String c s +:+ t = String c (s +:+ t).
Proof. reflexivity. Qed.

Lemma append_empty t : "" +:+ t = t.
Proof. reflexivity. Qed.

Lemma append_empty_r s : s +:+ "" = s.
Proof. induction s as [| c s IH]; [reflexivity |]. rewrite append_String, IH. reflexivity. Qed.

Ltac str_simpl := rewrite ?append_String, ?append_empty; simpl.

Lemma all_space_cons c s :
  all_space (String c s) <-> isSpace c = true /\ all_space s.
Proof.
  unfold all_space. simpl. split.
  - intros H. inversion H; subst. auto.
  - intros [Hc Hs]. constructor; assumption.
Qed.

Lemma no_space_cons c s :
  no_space (String c s) <-> isSpace c = false /\ no_space s.
Proof.
  unfold no_space. simpl. split.
  - intros H. inversion H; subst. auto.
  - intros [Hc Hs]. constructor; assumption.
Qed.

Lemma dropSpace_all_space lead s :
  all_space lead -> twicli.dropSpace (lead +:+ s) = twicli.dropSpace s.
Proof.
  induction lead as [| c lead IH]; intros H; [reflexivity |].
  apply all_space_cons in H as [Hc Hl]. str_simpl. rewrite Hc. auto.
Qed.

Lemma dropSpace_starts_word s :
  starts_word s -> twicli.dropSpace s = s.
Proof. destruct s as [| c s]; simpl; [reflexivity |]. intros ->. reflexivity. Qed.

Lemma dropSpace_only_space s :
  all_space s -> twicli.dropSpace s = "".
Proof.
  induction s as [| c s IH]; intros H; [reflexivity |].
  apply all_space_cons in H as [Hc Hs]. simpl. rewrite Hc. auto.
Qed.

Lemma dropSpace_split s :
  exists lead, s = lead +:+ twicli.dropSpace s /\ all_space lead
               /\ starts_word (twicli.dropSpace s).
Proof.
  induction s as [| c s (lead & Heq & Hl & Hw)].
  - exists "". repeat split; constructor.
  - simpl. destruct (isSpace c) eqn:Hc.
    + exists (String c lead). str_simpl. rewrite <- Heq.
      repeat split; [apply all_space_cons; auto | assumption].
    + exists "". str_simpl. repeat split; [constructor | assumption].
Qed.

Lemma spanWord_split s w r :
  twicli.spanWord s = (w, r) -> s = w +:+ r /\ no_space w /\ word_end r.
Proof.
  unfold word_end. revert w r. induction s as [| c s IH]; intros w r; simpl.
  - intros [= <- <-]. repeat split; [constructor | auto].
  - destruct (isSpace c) eqn:Hc.
    + intros [= <- <-]. repeat split; [constructor | eauto].
    + destruct (twicli.spanWord s) as [w' r'] eqn:Hs. intros [= <- <-].
      destruct (IH _ _ eq_refl) as (-> & Hw & Hr).
      repeat split; [apply no_space_cons; auto | assumption].
Qed.

Lemma spanWord_word tok after :
  no_space tok -> word_end after ->
  twicli.spanWord (tok +:+ after) = (tok, after).
Proof.
  intros Htok Hafter. induction tok as [| c tok IH]; str_simpl.
  - destruct Hafter as [-> | (c & r' & -> & Hc)]; simpl; [reflexivity |].
    rewrite Hc. reflexivity.
  - apply no_space_cons in Htok as [Hc Htok]. rewrite Hc, (IH Htok). reflexivity.
Qed.

Lemma word_starts tok after :
  tok <> "" -> no_space tok -> starts_word (tok +:+ after).
Proof.
  destruct tok as [| c tok]; [congruence |]. intros _ H.
  apply no_space_cons in H as [Hc _]. exact Hc.
Qed.

Lemma space_word_end sep rest :
  all_space sep -> (sep = "" -> rest = "") -> word_end (sep +:+ rest).
Proof.
  intros Hsep Hrest. destruct sep as [| c sep]; [left; auto |].
  right. apply all_space_cons in Hsep as [Hc _]. str_simpl. eauto.
Qed.

(** The modelled [PopFirstWord] yields exactly the first token of the
    body and what follows its separator. *)
Lemma PopFirstWord_first_token body first tail :
  twicli.PopFirstWord body = (first, tail, None) <-> first_token body first tail.
Proof.
  unfold twicli.PopFirstWord. split.
  - destruct (dropSpace_split body) as (lead & Hbody & Hlead & Hstart).
    destruct (twicli.spanWord (twicli.dropSpace body)) as [w r] eqn:Hspan.
    destruct (spanWord_split _ _ _ Hspan) as (Hsplit & Hw & Hr).
    destruct w as [| c w]; [intros [=] |].
    intros [= <- <-].
    destruct (dropSpace_split r) as (sep & Hr' & Hsep & Hrest).
    rewrite Hbody, Hsplit.
    destruct (twicli.dropSpace r) as [| d rest] eqn:Hdrop.
    + rewrite Hr', append_empty_r. apply first_token_last; auto; discriminate.
    + rewrite Hr'. apply first_token_more; auto; try discriminate.
      destruct Hr as [-> | (c' & r' & -> & Hc')]; [discriminate |].
      destruct sep; [| discriminate].
      rewrite append_empty in Hr'. injection Hr' as <- <-.
      simpl in Hrest. congruence.
  - intros H. destruct H as [lead tok sp Hlead Hne Htok Hsp
                            | lead tok sep rest Hlead Hne Htok Hsne Hsep Hrne Hrest].
    + rewrite (dropSpace_all_space lead _ Hlead).
      rewrite (dropSpace_starts_word (tok +:+ sp)) by (apply word_starts; auto).
      rewrite (spanWord_word tok sp)
        by (auto; rewrite <- (append_empty_r sp); apply space_word_end; auto).
      destruct tok; [congruence |].
      rewrite (dropSpace_only_space sp Hsp). reflexivity.
    + rewrite (dropSpace_all_space lead _ Hlead).
      rewrite (dropSpace_starts_word (tok +:+ sep +:+ rest))
        by (apply word_starts; auto).
      rewrite (spanWord_word tok (sep +:+ rest))
        by (auto; apply space_word_end; auto; congruence).
      destruct tok; [congruence |].
      rewrite (dropSpace_all_space sep rest Hsep), (dropSpace_starts_word rest Hrest).
      reflexivity.
Qed.

(** It fails exactly on a body that holds no word. *)
Lemma PopFirstWord_error body :
  (exists first tail err, twicli.PopFirstWord body = (first, tail, Some err))
  <-> all_space body.
Proof.
  unfold twicli.PopFirstWord. split.
  - destruct (dropSpace_split body) as (lead & Hbody & Hlead & Hstart).
    destruct (twicli.spanWord (twicli.dropSpace body)) as [w r] eqn:Hspan.
    destruct w as [| c w]; [| intros (? & ? & ? & [=])].
    intros _. destruct (twicli.dropSpace body) as [| d rest] eqn:Hdrop.
    + rewrite Hbody. clear -Hlead. induction lead as [| c lead IH]; [constructor |].
      apply all_space_cons in Hlead as [Hc Hl]. str_simpl. apply all_space_cons. auto.
    + simpl in Hspan, Hstart. rewrite Hstart in Hspan.
      destruct (twicli.spanWord rest); discriminate.
  - intros H. rewrite (dropSpace_only_space body H). simpl. eauto.
Qed.

(** ** Prefix matchers *)

Lemma lower_byte_comma c : lower_byte c = ","%char -> c = ","%char.
Proof.
  destruct c as [[] [] [] [] [] [] [] []]; vm_compute; congruence.
Qed.

Lemma ToLower_app s t : ToLower (s +:+ t) = ToLower s +:+ ToLower t.
Proof.
  induction s as [| c s IH]; [reflexivity |].
  rewrite append_String. simpl. rewrite IH. reflexivity.
Qed.

(** A word that folds to [p] followed by a comma is a word that folds
    to [p], followed by a comma. *)
Lemma ToLower_comma first p :
  ToLower first = p +:+ "," <->
  exists n, first = n +:+ "," /\ ToLower n = p.
Proof.
  split.
  - revert first. induction p as [| a p IH]; intros first H.
    + destruct first as [| c [| d first]]; try discriminate.
      simpl in H. injection H as H. apply lower_byte_comma in H as ->.
      exists "". split; reflexivity.
    + destruct first as [| c first]; [discriminate |].
      rewrite append_String in H. simpl in H. injection H as Hc Hrest.
      destruct (IH _ Hrest) as (n & -> & Hn).
      exists (String c n). split; [reflexivity |]. simpl. congruence.
  - intros (n & -> & <-). apply ToLower_app.
Qed.

Lemma PopFirstWord_cases body :
  (exists first tail, twicli.PopFirstWord body = (first, tail, None)
                      /\ first_token body first tail)
  \/ ((exists first tail err, twicli.PopFirstWord body = (first, tail, Some err))
      /\ forall first tail, ~ first_token body first tail).
Proof.
  destruct (twicli.PopFirstWord body) as [[first tail] [err |]] eqn:H.
  - right. split; [eauto |]. intros f t Hft.
    apply PopFirstWord_first_token in Hft. congruence.
  - left. exists first, tail. split; [reflexivity |].
    apply PopFirstWord_first_token. assumption.
Qed.

Lemma first_token_unique body first tail first' tail' :
  first_token body first tail -> first_token body first' tail' ->
  first = first' /\ tail = tail'.
Proof.
  intros H H'. apply PopFirstWord_first_token in H, H'. split; congruence.
Qed.

Lemma NewNaturalPrefix_match name body tail :
  twicli.NewNaturalPrefix name body = (tail, true) <->
  exists n, first_token body (n +:+ ",") tail /\ ToLower n = ToLower name.
Proof.
  unfold twicli.NewNaturalPrefix.
  destruct (PopFirstWord_cases body)
    as [(first & tail' & -> & Hft) | [(first & tail' & err & ->) Hnone]].
  - case_bool_decide as Hfold.
    + split; [discriminate |]. intros (n & Hn & Hlow).
      destruct (first_token_unique _ _ _ _ _ Hft Hn) as [-> _].
      exfalso. apply Hfold. apply ToLower_comma. eauto.
    + assert (Hfold' : ToLower first = ToLower name +:+ ",")
        by (destruct (decide (ToLower first = ToLower name +:+ ",")); tauto).
      apply ToLower_comma in Hfold' as (n & -> & Hn).
      split.
      * intros [= <-]. eauto.
      * intros (n' & Hn' & _).
        destruct (first_token_unique _ _ _ _ _ Hft Hn') as [_ ->]. reflexivity.
  - split; [discriminate |]. intros (n & Hn & _). destruct (Hnone _ _ Hn).
Qed.

Lemma NewNaturalPrefix_cases name body :
  (exists tail, twicli.NewNaturalPrefix name body = (tail, true))
  \/ twicli.NewNaturalPrefix name body = ("", false).
Proof.
  unfold twicli.NewNaturalPrefix.
  destruct (twicli.PopFirstWord body) as [[first tail] [err |]]; [auto |].
  case_bool_decide; eauto.
Qed.

Lemma NewSlashPrefix_match name body tail :
  twicli.NewSlashPrefix name body = (tail, true) <->
  first_token body ("/" +:+ name) tail.
Proof.
  unfold twicli.NewSlashPrefix.
  destruct (PopFirstWord_cases body)
    as [(first & tail' & -> & Hft) | [(first & tail' & err & ->) Hnone]].
  - case_bool_decide as Hne.
    + split; [discriminate |]. intros H.
      destruct (first_token_unique _ _ _ _ _ Hft H) as [-> _]. congruence.
    + assert (first = "/" +:+ name) as ->
        by (destruct (decide (first = "/" +:+ name)); tauto).
      split.
      * intros [= <-]. assumption.
      * intros H. destruct (first_token_unique _ _ _ _ _ Hft H) as [_ ->].
        reflexivity.
  - split; [discriminate |]. intros H. destruct (Hnone _ _ H).
Qed.

Lemma NewSlashPrefix_cases name body :
  (exists tail, twicli.NewSlashPrefix name body = (tail, true))
  \/ twicli.NewSlashPrefix name body = ("", false).
Proof.
  unfold twicli.NewSlashPrefix.
  destruct (twicli.PopFirstWord body) as [[first tail] [err |]]; [auto |].
  case_bool_decide; eauto.
Qed.

(** The word matcher says yes exactly on a body whose first token is the
    word, byte for byte when [cased] and up to letter case otherwise. *)
Lemma NewWordPrefix_match word cased body :
  snd (twicli.NewWordPrefix word cased body) = true <->
  exists first tail,
    first_token body first tail /\
    if cased then first = word else ToLower first = ToLower word.
Proof.
  unfold twicli.NewWordPrefix, EqualFold.
  destruct (PopFirstWord_cases body)
    as [(first & tail' & -> & Hft) | [(first & tail' & err & ->) Hnone]].
  - simpl. destruct cased; rewrite bool_decide_eq_true.
    + split; [eauto |]. intros (f & t & Hf & ->).
      destruct (first_token_unique _ _ _ _ _ Hft Hf) as [-> _]. reflexivity.
    + split; [eauto |]. intros (f & t & Hf & <-).
      destruct (first_token_unique _ _ _ _ _ Hft Hf) as [-> _]. reflexivity.
  - simpl. split; [discriminate |]. intros (f & t & Hf & _). destruct (Hnone _ _ Hf).
Qed.

(** ** Subcommand aggregation *)

Section SubcommandFacts.

Context {W : Type}.
Implicit Types (ctx : Context W) (msg : twicli.Message).
Implicit Types (cmds pre post : list (twicli.Command W)).

Lemma Subcommands_cons ctx msg c cmds w :
  twicli.Subcommands (c :: cmds) ctx msg w =
    let (err, w1) := twicli.Do c ctx msg w in
    if errors_Is_ErrNotMatched err then twicli.Subcommands cmds ctx msg w1
    else (err, w1).
Proof.
  simpl. destruct (twicli.Do c ctx msg w) as [err w1].
  destruct (errors_Is_ErrNotMatched err); [reflexivity|].
  destruct err; reflexivity.
Qed.

Lemma Subcommands_all_skip ctx msg cmds w w' :
  all_skip ctx msg cmds w w' ->
  twicli.Subcommands cmds ctx msg w = (Some ErrNotMatched, w').
Proof.
  induction 1 as [w | c cs w w1 w2 err Hdo Hskip _ IH].
  - reflexivity.
  - rewrite Subcommands_cons, Hdo, Hskip. exact IH.
Qed.

Lemma Subcommands_decisive ctx msg pre c post w w1 r w2 :
  all_skip ctx msg pre w w1 ->
  twicli.Do c ctx msg w1 = (r, w2) ->
  errors_Is_ErrNotMatched r = false ->
  twicli.Subcommands (pre ++ c :: post) ctx msg w = (r, w2).
Proof.
  intros Hpre Hdo Hr.
  induction Hpre as [w | c' cs w w1 w1' err Hdo' Hskip _ IH].
  - simpl app. rewrite Subcommands_cons, Hdo, Hr. reflexivity.
  - simpl app. rewrite Subcommands_cons, Hdo', Hskip. auto.
Qed.

Lemma Subcommands_cases ctx msg cmds w :
  (exists w', all_skip ctx msg cmds w w') \/
  (exists pre c post w1 r w2,
      cmds = pre ++ c :: post /\
      all_skip ctx msg pre w w1 /\
      twicli.Do c ctx msg w1 = (r, w2) /\
      errors_Is_ErrNotMatched r = false).
Proof.
  revert w. induction cmds as [| c cs IH]; intros w.
  - left. exists w. constructor.
  - destruct (twicli.Do c ctx msg w) as [err w1] eqn:Hdo.
    destruct (errors_Is_ErrNotMatched err) eqn:His.
    + destruct (IH w1) as [[w' Hall] | (pre & c' & post & w1' & r & w2 & -> & Hall & Hdo' & Hr)].
      * left. exists w'. econstructor; eauto.
      * right. exists (c :: pre), c', post, w1', r, w2.
        repeat split; auto. econstructor; eauto.
    + right. exists [], c, cs, w, err, w1. repeat split; auto. constructor.
Qed.

End SubcommandFacts.

(** C1.  The aggregate built by [Subcommands] runs the children's [Do]
    in list order on the same message.  As long as a child answers an
    error whose chain holds the [ErrNotMatched] sentinel, the next child
    is run; the first child that answers anything else (success or
    another error) decides: its answer is the aggregate's answer, the
    world is the one that child left, and the children after it are not
    run.  When every child answers the sentinel, the aggregate answers
    [ErrNotMatched].  Every run is of one of these two kinds. *)
Theorem Subcommands_first_decisive_child :
  forall (W : Type) (ctx : Context W) (msg : twicli.Message)
         (cmds : list (twicli.Command W)) (w : W),
    (forall w', all_skip ctx msg cmds w w' ->
                twicli.Subcommands cmds ctx msg w = (Some ErrNotMatched, w'))
    /\ (forall pre c post w1 r w2,
          cmds = pre ++ c :: post ->
          all_skip ctx msg pre w w1 ->
          twicli.Do c ctx msg w1 = (r, w2) ->
          errors_Is_ErrNotMatched r = false ->
          twicli.Subcommands cmds ctx msg w = (r, w2))
    /\ ((exists w', all_skip ctx msg cmds w w') \/
        (exists pre c post w1 r w2,
            cmds = pre ++ c :: post /\
            all_skip ctx msg pre w w1 /\
            twicli.Do c ctx msg w1 = (r, w2) /\
            errors_Is_ErrNotMatched r = false)).
Proof.
  intros W ctx msg cmds w. split; [| split].
  - apply Subcommands_all_skip.
  - intros pre c post w1 r w2 -> Hpre Hdo Hr.
    eapply Subcommands_decisive; eassumption.
  - apply Subcommands_cases.
Qed.

(** The first child does not match, the second matches and fails with
    its own error, the third would match too: the journal shows that
    only the second one ran. *)
Lemma Subcommands_first_decisive_child_witness :
  all_skip sample_ctx sample_msg [cmd_help] [] []
  /\ twicli.Do cmd_msg_failing sample_ctx sample_msg []
       = (Some (errors_New "boom"), ["msg hi"])
  /\ twicli.Subcommands [cmd_help; cmd_msg_failing; cmd_msg_late]
        sample_ctx sample_msg []
       = (Some (errors_New "boom"), ["msg hi"]).
Proof.
  assert (Hskip : all_skip sample_ctx sample_msg [cmd_help] [] []).
  { eapply all_skip_cons with (err := Some ErrNotMatched);
      [reflexivity | reflexivity | constructor]. }
  split; [exact Hskip | split; [reflexivity |]].
  exact (proj1 (proj2 (Subcommands_first_decisive_child journal sample_ctx
                         sample_msg [cmd_help; cmd_msg_failing; cmd_msg_late] []))
               [cmd_help] cmd_msg_failing [cmd_msg_late] [] _ _
               eq_refl Hskip eq_refl eq_refl).
Defined.





(** C5.  The slash-prefix matcher for [name] matches a body exactly when
    the body's first white-space-delimited token is "/" followed by
    [name], byte for byte; it then answers the rest of the body and
    [true].  For "msg": "/msg hi" gives ("hi", true) and "/Msg hi" does
    not match. *)
Theorem NewSlashPrefix_first_token_slash_name :
  forall name body : string,
    (forall tail,
        twicli.NewSlashPrefix name body = (tail, true) <->
        first_token body ("/" +:+ name) tail)
    /\ (snd (twicli.NewSlashPrefix name body) = true <->
        exists tail, first_token body ("/" +:+ name) tail)
    /\ twicli.NewSlashPrefix "msg" "/msg hi" = ("hi", true)
    /\ snd (twicli.NewSlashPrefix "msg" "/Msg hi") = false.
Proof.
  intros name body. split; [| split; [| split; reflexivity]].
  - intros tail. apply NewSlashPrefix_match.
  - split.
    + intros Hm. destruct (NewSlashPrefix_cases name body) as [[tail Ht] | Hno].
      * apply NewSlashPrefix_match in Ht. eauto.
      * rewrite Hno in Hm. discriminate.
    + intros (tail & Ht). apply NewSlashPrefix_match in Ht.
      rewrite Ht. reflexivity.
Qed.

(** ** Replying with the error *)

Lemma ErrorMessage_cases (e : error) :
  twicli.ErrorMessage (Some e) =
    if chain_has_sentinel e then "Sorry! I'm not sure what you mean."
    else "Sorry, an error occured: " +:+ Error e.
Proof. reflexivity. Qed.




(** ** Message filters *)

Lemma filterLoop_Forall fs msg :
  twisms.filterLoop fs msg = true <-> Forall (satisfies msg) fs.
Proof.
  induction fs as [| f fs IH]; simpl.
  - split; [constructor | reflexivity].
  - rewrite Forall_cons, <- IH. unfold satisfies.
    destruct (twisms.GetFilter f) as [[from | to] |].
    + case_bool_decide as H; intuition congruence.
    + case_bool_decide as H; intuition congruence.
    + tauto.
Qed.

(** C6.  [FilterMessage] answers [true] exactly when the message
    satisfies every filter of the list: a match-from filter asks that
    the message's from field equal its string, a match-to filter the
    same of the to field.  So a list that holds a match-from filter for
    [a] rejects every message whose from field is not [a], and the empty
    list (like a nil list) accepts every message. *)
Theorem FilterMessage_conjunction :
  forall (filters : option twisms.MessageFilters) (msg : option twisms.Message),
    (twisms.FilterMessage filters msg = true <->
     Forall (satisfies msg) (twisms.GetFilters filters))
    /\ (forall a : string,
          Some (twisms.mkMessageFilter (Some (twisms.MessageFilter_MatchFrom a)))
            ∈ twisms.GetFilters filters ->
          twisms.GetFrom msg <> a ->
          twisms.FilterMessage filters msg = false)
    /\ (forall a : string,
          Some (twisms.mkMessageFilter (Some (twisms.MessageFilter_MatchTo a)))
            ∈ twisms.GetFilters filters ->
          twisms.GetTo msg <> a ->
          twisms.FilterMessage filters msg = false)
    /\ twisms.FilterMessage (Some (twisms.mkMessageFilters [])) msg = true
    /\ twisms.FilterMessage None msg = true.
Proof.
  intros filters msg. unfold twisms.FilterMessage.
  split; [apply filterLoop_Forall |].
  split; [| split; [| split; reflexivity]].
  - intros a Hin Hne.
    destruct (twisms.filterLoop (twisms.GetFilters filters) msg) eqn:Hall;
      [| reflexivity].
    apply filterLoop_Forall in Hall. rewrite Forall_forall in Hall.
    apply Hall in Hin. contradiction.
  - intros a Hin Hne.
    destruct (twisms.filterLoop (twisms.GetFilters filters) msg) eqn:Hall;
      [| reflexivity].
    apply filterLoop_Forall in Hall. rewrite Forall_forall in Hall.
    apply Hall in Hin. contradiction.
Qed.

(** A match-from filter for "A" against a message from "B". *)
Lemma FilterMessage_conjunction_witness :
  Some (twisms.mkMessageFilter (Some (twisms.MessageFilter_MatchFrom "A")))
    ∈ twisms.GetFilters filters_from_A
  /\ twisms.GetFrom msg_from_B <> "A"
  /\ twisms.FilterMessage filters_from_A msg_from_B = false.
Proof.
  assert (Hin : Some (twisms.mkMessageFilter (Some (twisms.MessageFilter_MatchFrom "A")))
                  ∈ twisms.GetFilters filters_from_A) by (simpl; left).
  assert (Hne : twisms.GetFrom msg_from_B <> "A") by (simpl; discriminate).
  split; [exact Hin | split; [exact Hne |]].
  exact (proj1 (proj2 (FilterMessage_conjunction filters_from_A msg_from_B))
               "A" Hin Hne).
Defined.

(** ** The loader *)

(** C7.  When the enabled map does not hold [true] for "twid", [Start]
    returns the error "twid is not enabled" and has started no
    goroutine, whatever else is enabled, loaded or configured. *)
Theorem Start_refuses_when_twid_not_enabled :
  forall (TwipiConfig : Type)
         (rangeHandlers : gmap string twid.Handler -> list (string * twid.Handler))
         (l : twid.Loader TwipiConfig),
    twid.enabled TwipiConfig l !! "twid" <> Some true ->
    twid.Start TwipiConfig rangeHandlers l
    = ([], twid.ReturnsError (errors_New "twid is not enabled")).
Proof.
  intros T range l Hoff. unfold twid.Start, twid.isEnabled.
  destruct (twid.enabled T l !! "twid") as [[|] |]; simpl;
    [congruence | reflexivity | reflexivity].
Qed.

Example Start_ready :
  twid.Start unit range_sorted loader_ready
  = ([twid.UpdateTwilio; twid.HTTPListenAndServe ":8080";
      twid.MessageLoop "discord"; twid.HandlerStart "discord"],
     twid.ReturnsWait).
Proof. reflexivity. Qed.

(** A loader with "discord" and "twipi" enabled and "twid" switched
    off. *)
Lemma Start_refuses_when_twid_not_enabled_witness :
  twid.enabled unit loader_without_twid !! "twid" <> Some true
  /\ twid.enabled unit loader_without_twid !! "discord" = Some true
  /\ twid.Start unit range_sorted loader_without_twid
     = ([], twid.ReturnsError (errors_New "twid is not enabled")).
Proof.
  assert (Hoff : twid.enabled unit loader_without_twid !! "twid" <> Some true)
    by (vm_compute; discriminate).
  split; [exact Hoff | split; [reflexivity |]].
  exact (Start_refuses_when_twid_not_enabled unit range_sorted
           loader_without_twid Hoff).
Defined.

(** ** Registration *)

Lemma illegalLoop_None names m :
  twid.illegalLoop names m = None <-> twid.Name m ∉ names.
Proof.
  induction names as [| n names IH]; simpl.
  - split; [intros _; apply not_elem_of_nil | reflexivity].
  - rewrite not_elem_of_cons. case_bool_decide as Heq.
    + split; [discriminate | tauto].
    + rewrite IH. tauto.
Qed.

Lemma Register_returns m ms ms' :
  twid.Register m ms = twid.Returns ms' <-> legal m /\ ms' = ms ++ [m].
Proof.
  unfold twid.Register, legal. rewrite <- illegalLoop_None.
  destruct (twid.illegalLoop twid.illegalNames m).
  - split; [discriminate | intros [[=] _]].
  - split; [intros [= <-]; auto | intros [_ ->]; reflexivity].
Qed.

Lemma Register_panics m ms :
  twid.Name m ∈ twid.illegalNames ->
  twid.Register m ms = twid.Panics ("illegal module name: " +:+ twid.Name m).
Proof.
  unfold twid.Register, twid.illegalNames. intros Hin. simpl.
  case_bool_decide as Htwid; [rewrite Htwid; reflexivity |].
  case_bool_decide as Htwipi; [rewrite Htwipi; reflexivity |].
  apply elem_of_cons in Hin as [Hin | Hin]; [congruence |].
  apply elem_of_cons in Hin as [Hin | Hin]; [congruence |].
  apply elem_of_nil in Hin. destruct Hin.
Qed.

Lemma RegisterAll_returns mods init ms :
  twid.RegisterAll mods init = twid.Returns ms <->
  Forall legal mods /\ ms = init ++ mods.
Proof.
  revert init. induction mods as [| m mods IH]; intros init; simpl.
  - rewrite app_nil_r. split; [intros [= <-]; auto | intros [_ ->]; reflexivity].
  - rewrite Forall_cons.
    destruct (twid.Register m init) as [init' | reason] eqn:Hreg.
    + apply Register_returns in Hreg as [Hlegal ->].
      rewrite IH, <- app_assoc. simpl. tauto.
    + split; [discriminate |]. intros [[Hlegal _] _]. exfalso.
      assert (Hok : twid.Register m init = twid.Returns (init ++ [m]))
        by (apply Register_returns; auto).
      congruence.
Qed.

Lemma NewLoader_handlers_foldl (ms : list twid.Module)
    (acc : gmap string twid.Handler) (name : string) :
  foldl (fun hs module => <[twid.Name module := twid.New module tt]> hs) acc ms
    !! name
  = match last (filter (fun m => twid.Name m = name) ms) with
    | Some m => Some (twid.New m tt)
    | None => acc !! name
    end.
Proof.
  induction ms as [| m ms IH] using rev_ind; [reflexivity |].
  rewrite foldl_app, filter_app. simpl.
  rewrite filter_cons, filter_nil.
  case_decide as Hname.
  - rewrite last_snoc, Hname. apply lookup_insert_eq.
  - rewrite app_nil_r, lookup_insert_ne by exact Hname. exact IH.
Qed.

(** C9, as stated, fails: [Register] takes the same name twice, and the
    handler map then holds one entry for the two modules. *)
Lemma Register_accepts_a_name_twice :
  twid.RegisterAll [mod_discord; mod_discord_again] []
    = twid.Returns [mod_discord; mod_discord_again]
  /\ ~ NoDup (twid.Name <$> [mod_discord; mod_discord_again])
  /\ twid.handlers unit (twid.NewLoader unit [mod_discord; mod_discord_again])
       !! "discord" = Some plain_handler
  /\ size (twid.handlers unit
             (twid.NewLoader unit [mod_discord; mod_discord_again])) = 1.
Proof.
  split; [reflexivity |]. split; [| split; [reflexivity | reflexivity]].
  intros Hnd. apply NoDup_cons in Hnd as [Hnotin _].
  apply Hnotin. left.
Qed.

(** C9, amended.  A run of registrations that completes without a fault
    appends the modules in order and none of their names is reserved;
    registering a reserved name panics.  Names are not checked against
    each other: the handler map of the loader holds, for each registered
    name, the handler built by the last module registered under it. *)
Theorem Register_keeps_reserved_names_out :
  forall (mods init ms : list twid.Module),
    (twid.RegisterAll mods init = twid.Returns ms ->
     ms = init ++ mods /\
     Forall (fun m => twid.Name m ∉ twid.illegalNames) mods)
    /\ (forall m, twid.Name m ∈ twid.illegalNames ->
                  exists reason, twid.Register m ms = twid.Panics reason)
    /\ (forall (TwipiConfig : Type) (name : string),
          twid.handlers TwipiConfig (twid.NewLoader TwipiConfig ms) !! name
          = (fun m => twid.New m tt)
              <$> last (filter (fun m => twid.Name m = name) ms)).
Proof.
  intros mods init ms. split; [| split].
  - intros H. apply RegisterAll_returns in H as [Hlegal ->]. auto.
  - intros m Hin. eexists. apply Register_panics. exact Hin.
  - intros T name. unfold twid.NewLoader. simpl.
    rewrite NewLoader_handlers_foldl.
    destruct (last (filter (fun m => twid.Name m = name) ms)); reflexivity.
Qed.

(** Two modules named "discord" go in; "twipi" is turned away. *)
Lemma Register_keeps_reserved_names_out_witness :
  twid.RegisterAll [mod_discord; mod_discord_again] []
    = twid.Returns [mod_discord; mod_discord_again]
  /\ Forall (fun m => twid.Name m ∉ twid.illegalNames)
            [mod_discord; mod_discord_again]
  /\ twid.Name mod_reserved ∈ twid.illegalNames
  /\ exists reason,
       twid.Register mod_reserved [mod_discord; mod_discord_again]
       = twid.Panics reason.
Proof.
  assert (Hrun : twid.RegisterAll [mod_discord; mod_discord_again] []
                 = twid.Returns [mod_discord; mod_discord_again]) by reflexivity.
  assert (Hin : twid.Name mod_reserved ∈ twid.illegalNames)
    by (right; left).
  split; [exact Hrun |].
  split; [exact (proj2 (proj1 (Register_keeps_reserved_names_out
                                 [mod_discord; mod_discord_again] []
                                 [mod_discord; mod_discord_again]) Hrun)) |].
  split; [exact Hin |].
  exact (proj1 (proj2 (Register_keeps_reserved_names_out
                         [mod_discord; mod_discord_again] []
                         [mod_discord; mod_discord_again])) mod_reserved Hin).
Defined.

(** ** Loading the configuration *)

Section LoadConfigFacts.

Variable TwipiConfig : Type.
Variable ParseMany : string -> string -> list twid.any -> error + twid.Parsed TwipiConfig.
Variable NewConfiguredServer : TwipiConfig -> error + twid.ConfiguredServer.
Variable EnvString_Value : string -> string.
Variable path_Join : string -> string -> string.
Variable rangeHandlers : gmap string twid.Handler -> list (string * twid.Handler).

Lemma isEnabled_setParsed (l : twid.Loader TwipiConfig) doc name :
  twid.isEnabled TwipiConfig (twid.setParsed TwipiConfig l doc) name
  = default (twid.isEnabled TwipiConfig l name)
            (twid.parsed_enabledBlocks TwipiConfig doc !! name).
Proof.
  unfold twid.isEnabled. simpl. rewrite lookup_union.
  destruct (twid.parsed_enabledBlocks TwipiConfig doc !! name) as [b |];
    destruct (twid.enabled TwipiConfig l !! name); reflexivity.
Qed.

(** The configuration handed to [LoadConfig] parses, enables "twipi",
    the transport accepts its section, and no listen address is set, on
    a loader that has no mux yet: the mount of the transport's handler
    dereferences the nil mux. *)
Lemma LoadConfig_nil_mux (l : twid.Loader TwipiConfig) b configType doc srv :
  ParseMany b configType
    (omap (fun '(_, handler) => twid.Config handler)
          (rangeHandlers (twid.handlers TwipiConfig l))) = inr doc ->
  twid.parsed_enabledBlocks TwipiConfig doc !! "twipi" = Some true ->
  twid.parsed_ListenAddr TwipiConfig doc = "" ->
  NewConfiguredServer (twid.parsed_Twipi TwipiConfig doc) = inr srv ->
  twid.mux TwipiConfig l = None ->
  twid.LoadConfig TwipiConfig ParseMany NewConfiguredServer EnvString_Value
    path_Join rangeHandlers l b configType
  = twid.Panics "invalid memory address or nil pointer dereference".
Proof.
  intros Hparse Hon Haddr Hsrv Hmux. unfold twid.LoadConfig.
  rewrite Hparse, isEnabled_setParsed, Hon. simpl.
  rewrite Hsrv. simpl. rewrite Haddr. simpl.
  unfold twid.Mount_twipi. simpl. rewrite Hmux. reflexivity.
Qed.

End LoadConfigFacts.

Example LoadConfig_with_listen_addr :
  exists l,
    twid.LoadConfig unit parse_listen_addr server_ok (fun s => s)
      (fun a b => a +:+ "/" +:+ b) range_sorted
      (twid.NewLoader unit [mod_discord]) "" "toml"
    = twid.Returns (None, l)
    /\ twid.mux unit l = Some (twid.mkMux [("/", "twipi")])
    /\ twid.http unit l = Some (twid.mkServer ":8080")
    /\ twid.handlers unit l !! "discord"
       = Some (twid.BindTwipi messaging_handler (twid.mkConfiguredServer true)).
Proof. eexists. vm_compute. repeat split. Qed.

(** C10 fails on the code.  For every document that parses, enables
    "twipi" with a section the transport accepts and leaves the listen
    address empty, [LoadConfig] on a loader without a mux does not
    return: it panics on the nil mux when it mounts the transport's
    handler. *)
Theorem LoadConfig_panics_without_listen_addr :
  forall (TwipiConfig : Type)
         (ParseMany : string -> string -> list twid.any
                      -> error + twid.Parsed TwipiConfig)
         (NewConfiguredServer : TwipiConfig -> error + twid.ConfiguredServer)
         (EnvString_Value : string -> string)
         (path_Join : string -> string -> string)
         (rangeHandlers : gmap string twid.Handler
                          -> list (string * twid.Handler))
         (modules : list twid.Module) (b configType : string)
         (doc : twid.Parsed TwipiConfig) (srv : twid.ConfiguredServer),
    ParseMany b configType
      (omap (fun '(_, handler) => twid.Config handler)
            (rangeHandlers
               (twid.handlers TwipiConfig (twid.NewLoader TwipiConfig modules))))
      = inr doc ->
    twid.parsed_enabledBlocks TwipiConfig doc !! "twipi" = Some true ->
    twid.parsed_ListenAddr TwipiConfig doc = "" ->
    NewConfiguredServer (twid.parsed_Twipi TwipiConfig doc) = inr srv ->
    twid.LoadConfig TwipiConfig ParseMany NewConfiguredServer EnvString_Value
      path_Join rangeHandlers (twid.NewLoader TwipiConfig modules) b configType
    = twid.Panics "invalid memory address or nil pointer dereference".
Proof.
  intros T parse mk value join range modules b configType doc srv
         Hparse Hon Haddr Hsrv.
  eapply LoadConfig_nil_mux; eauto.
Qed.

(** The document that enables "twid" and "twipi" and sets no listen
    address, loaded into a fresh loader with one module. *)
Lemma LoadConfig_panics_without_listen_addr_witness :
  twid.parsed_enabledBlocks unit doc_no_listen_addr !! "twipi" = Some true
  /\ twid.parsed_ListenAddr unit doc_no_listen_addr = ""
  /\ twid.LoadConfig unit parse_no_listen_addr server_ok (fun s => s)
       (fun a b => a +:+ "/" +:+ b) range_sorted
       (twid.NewLoader unit [mod_discord]) toml_no_listen_addr "toml"
     = twid.Panics "invalid memory address or nil pointer dereference".
Proof.
  split; [reflexivity | split; [reflexivity |]].
  exact (LoadConfig_panics_without_listen_addr unit parse_no_listen_addr
           server_ok (fun s => s) (fun a b => a +:+ "/" +:+ b) range_sorted
           [mod_discord] toml_no_listen_addr "toml" doc_no_listen_addr
           (twid.mkConfiguredServer true) eq_refl eq_refl eq_refl eq_refl).
Defined.

(** * Further properties *)

(** ** Combined and word matchers *)

Lemma CombinePrefixes_skip (pre rest : list twicli.PrefixFunc) body :
  Forall (fun q => snd (q body) = false) pre ->
  twicli.CombinePrefixes (pre ++ rest) body = twicli.CombinePrefixes rest body.
Proof.
  induction 1 as [| q pre Hq _ IH]; [reflexivity |].
  simpl. destruct (q body) as [b ok]. simpl in Hq. subst ok. exact IH.
Qed.

Lemma CombinePrefixes_matched (prefixes : list twicli.PrefixFunc) body :
  snd (twicli.CombinePrefixes prefixes body) = true <->
  Exists (fun q => snd (q body) = true) prefixes.
Proof.
  induction prefixes as [| q qs IH]; simpl.
  - rewrite Exists_nil. split; [discriminate | tauto].
  - rewrite Exists_cons. destruct (q body) as [b [|]]; simpl.
    + tauto.
    + rewrite IH. split; [tauto | intros [H | H]; [discriminate | exact H]].
Qed.

(** X1.  [CombinePrefixes] answers what the first matcher of the list
    that matches the body answers; when none matches it answers the
    empty string and [false]; it matches exactly when some matcher of
    the list does. *)
Theorem CombinePrefixes_first_match :
  forall (prefixes : list twicli.PrefixFunc) (body : string),
    (forall pre p post tail,
        prefixes = pre ++ p :: post ->
        Forall (fun q => snd (q body) = false) pre ->
        p body = (tail, true) ->
        twicli.CombinePrefixes prefixes body = (tail, true))
    /\ (Forall (fun q => snd (q body) = false) prefixes ->
        twicli.CombinePrefixes prefixes body = ("", false))
    /\ (snd (twicli.CombinePrefixes prefixes body) = true <->
        Exists (fun q => snd (q body) = true) prefixes).
Proof.
  intros prefixes body. split; [| split].
  - intros pre p post tail -> Hpre Hp.
    rewrite (CombinePrefixes_skip pre (p :: post) body Hpre).
    simpl. rewrite Hp. reflexivity.
  - intros Hall. rewrite <- (app_nil_r prefixes).
    rewrite (CombinePrefixes_skip prefixes [] body Hall). reflexivity.
  - apply CombinePrefixes_matched.
Qed.

(** The slash matcher misses "discord, hi", the natural one takes it. *)
Lemma CombinePrefixes_first_match_witness :
  Forall (fun q : twicli.PrefixFunc => snd (q "discord, hi") = false)
         [twicli.NewSlashPrefix "msg"]
  /\ twicli.NewNaturalPrefix "Discord" "discord, hi" = ("hi", true)
  /\ twicli.CombinePrefixes
       [twicli.NewSlashPrefix "msg"; twicli.NewNaturalPrefix "Discord";
        twicli.NewWordPrefix "discord," false] "discord, hi" = ("hi", true).
Proof.
  assert (Hpre : Forall (fun q : twicli.PrefixFunc => snd (q "discord, hi") = false)
                        [twicli.NewSlashPrefix "msg"])
    by (constructor; [reflexivity | constructor]).
  split; [exact Hpre | split; [reflexivity |]].
  exact (proj1 (CombinePrefixes_first_match
                  [twicli.NewSlashPrefix "msg"; twicli.NewNaturalPrefix "Discord";
                   twicli.NewWordPrefix "discord," false] "discord, hi")
               [twicli.NewSlashPrefix "msg"] (twicli.NewNaturalPrefix "Discord")
               [twicli.NewWordPrefix "discord," false] "hi"
               eq_refl Hpre eq_refl).
Defined.




(** ** Aggregates of aggregates *)

Section AggregateFacts.

Context {W : Type}.
Implicit Types (ctx : Context W) (msg : twicli.Message).
Implicit Types (cmds xs ys : list (twicli.Command W)).

Lemma Subcommands_app_run ctx msg xs ys w :
  twicli.Subcommands (xs ++ ys) ctx msg w =
    let (r, w1) := twicli.Subcommands xs ctx msg w in
    if errors_Is_ErrNotMatched r then twicli.Subcommands ys ctx msg w1
    else (r, w1).
Proof.
  revert w. induction xs as [| c xs IH]; intros w.
  - reflexivity.
  - simpl app. rewrite !Subcommands_cons.
    destruct (twicli.Do c ctx msg w) as [err w1].
    destruct (errors_Is_ErrNotMatched err) eqn:His; [apply IH |].
    rewrite His. reflexivity.
Qed.

Lemma Subcommands_sentinel_is_bare ctx msg cmds w :
  errors_Is_ErrNotMatched (fst (twicli.Subcommands cmds ctx msg w)) = true ->
  fst (twicli.Subcommands cmds ctx msg w) = Some ErrNotMatched.
Proof.
  revert w. induction cmds as [| c cs IH]; intros w; [reflexivity |].
  rewrite Subcommands_cons.
  destruct (twicli.Do c ctx msg w) as [err w1].
  destruct (errors_Is_ErrNotMatched err) eqn:His; [apply IH |].
  simpl. congruence.
Qed.

End AggregateFacts.

(** X4.  An aggregate over a list [xs ++ ys] is the aggregate over [xs]
    followed, when that one answers the sentinel, by the aggregate over
    [ys] run from the world [xs] left; any other answer of [xs] is
    final. *)
Theorem Subcommands_app :
  forall (W : Type) (ctx : Context W) (msg : twicli.Message)
         (xs ys : list (twicli.Command W)) (w : W),
    twicli.Subcommands (xs ++ ys) ctx msg w =
      let (r, w1) := twicli.Subcommands xs ctx msg w in
      if errors_Is_ErrNotMatched r then twicli.Subcommands ys ctx msg w1
      else (r, w1).
Proof. intros. apply Subcommands_app_run. Qed.

(** X5.  An aggregate never answers a wrapped sentinel: its answer is
    nil, the [ErrNotMatched] value itself, or an error whose chain does
    not hold the sentinel.  A child that answers the sentinel wrapped in
    context is passed over like one that did not match, and the context
    is lost. *)
Theorem Subcommands_answers_bare_sentinel :
  forall (W : Type) (ctx : Context W) (msg : twicli.Message)
         (cmds : list (twicli.Command W)) (w : W),
    fst (twicli.Subcommands cmds ctx msg w) = None
    \/ fst (twicli.Subcommands cmds ctx msg w) = Some ErrNotMatched
    \/ exists e, fst (twicli.Subcommands cmds ctx msg w) = Some e
                 /\ chain_has_sentinel e = false.
Proof.
  intros W ctx msg cmds w.
  destruct (errors_Is_ErrNotMatched (fst (twicli.Subcommands cmds ctx msg w)))
    eqn:His.
  - right. left. apply Subcommands_sentinel_is_bare. exact His.
  - destruct (fst (twicli.Subcommands cmds ctx msg w)) as [e |]; [| auto].
    right. right. exists e. auto.
Qed.

Lemma withBody_same (msg : twicli.Message) :
  twicli.withBody msg (twicli.Body msg) = msg.
Proof. destruct msg. reflexivity. Qed.

(** X7.  A child that is itself an aggregate over [ys], behind a prefix
    that takes the body and leaves it as it is, can be replaced by the
    children [ys] in its place: the answer and the world are the
    same. *)
Theorem Subcommands_flatten :
  forall (W : Type) (ctx : Context W) (msg : twicli.Message)
         (p : twicli.PrefixFunc) (xs ys zs : list (twicli.Command W)) (w : W),
    p (twicli.Body msg) = (twicli.Body msg, true) ->
    twicli.Subcommands
      (xs ++ twicli.mkCommand p (twicli.Subcommands ys) :: zs) ctx msg w
    = twicli.Subcommands (xs ++ ys ++ zs) ctx msg w.
Proof.
  intros W ctx msg p xs ys zs w Hp.
  rewrite !Subcommands_app_run.
  destruct (twicli.Subcommands xs ctx msg w) as [r w1].
  destruct (errors_Is_ErrNotMatched r); [| reflexivity].
  rewrite Subcommands_cons, Subcommands_app_run.
  unfold twicli.Do. simpl. rewrite Hp, withBody_same.
  destruct (twicli.Subcommands ys ctx msg w1) as [r' w2] eqn:Hys.
  destruct (errors_Is_ErrNotMatched r') eqn:His; reflexivity.
Qed.

(** The group of the two "/msg" commands behind a prefix that takes
    everything. *)
Lemma Subcommands_flatten_witness :
  (fun body : string => (body, true)) (twicli.Body sample_msg)
    = (twicli.Body sample_msg, true)
  /\ twicli.Subcommands
       ([cmd_help]
          ++ twicli.mkCommand (fun body => (body, true))
               (twicli.Subcommands [cmd_msg_failing; cmd_msg_late]) :: [])
       sample_ctx sample_msg []
     = twicli.Subcommands ([cmd_help] ++ [cmd_msg_failing; cmd_msg_late] ++ [])
         sample_ctx sample_msg [].
Proof.
  split; [reflexivity |].
  exact (Subcommands_flatten journal sample_ctx sample_msg
           (fun body => (body, true)) [cmd_help]
           [cmd_msg_failing; cmd_msg_late] [] [] eq_refl).
Defined.

(** ** The text of an error *)

Lemma append_not_empty (s t : string) : s <> "" -> s +:+ t <> "".
Proof. destruct s; [congruence | discriminate]. Qed.

(** X6.  [ErrorMessage] answers the empty text for nil and for nothing
    else.  Every error whose chain holds the sentinel gets the same
    text, whatever context wraps it; for the other errors the text is a
    fixed lead followed by the error's own text, so two of them get the
    same text only when their own texts are equal. *)
Theorem ErrorMessage_empty_only_for_nil :
  forall err : option error,
    (twicli.ErrorMessage err = "" <-> err = None)
    /\ (forall e,
          err = Some e -> chain_has_sentinel e = true ->
          twicli.ErrorMessage err = twicli.ErrorMessage (Some ErrNotMatched))
    /\ (forall e e',
          err = Some e -> chain_has_sentinel e = false ->
          chain_has_sentinel e' = false ->
          twicli.ErrorMessage err = twicli.ErrorMessage (Some e') ->
          Error e = Error e').
Proof.
  intros err. split; [| split].
  - destruct err as [e |]; [| tauto]. rewrite ErrorMessage_cases.
    split; [| discriminate].
    destruct (chain_has_sentinel e); [discriminate |].
    intros H. exfalso. revert H. apply append_not_empty. discriminate.
  - intros e -> He. rewrite !ErrorMessage_cases, He. reflexivity.
  - intros e e' -> He He'. rewrite !ErrorMessage_cases, He, He'.
    apply (inj (String.append "Sorry, an error occured: ")).
Qed.

(** The sentinel wrapped twice, and two plain errors. *)
Lemma ErrorMessage_empty_only_for_nil_witness :
  chain_has_sentinel (errors_Wrap (errors_Wrap ErrNotMatched "inner") "outer") = true
  /\ twicli.ErrorMessage
       (Some (errors_Wrap (errors_Wrap ErrNotMatched "inner") "outer"))
     = "Sorry! I'm not sure what you mean.".
Proof.
  split; [reflexivity |].
  exact (proj1 (proj2 (ErrorMessage_empty_only_for_nil
                         (Some (errors_Wrap (errors_Wrap ErrNotMatched "inner") "outer"))))
               _ eq_refl eq_refl).
Defined.

(** ** Filters, once more *)

Lemma filterLoop_app fs1 fs2 msg :
  twisms.filterLoop (fs1 ++ fs2) msg
  = twisms.filterLoop fs1 msg && twisms.filterLoop fs2 msg.
Proof.
  induction fs1 as [| f fs1 IH]; [reflexivity |]. simpl.
  destruct (twisms.GetFilter f) as [[from | to] |]; [| | exact IH];
    case_bool_decide; auto.
Qed.

Lemma bool_eq_iff (a b : bool) : (a = true <-> b = true) -> a = b.
Proof. destruct a, b; intuition congruence. Qed.

(** X8.  Filter lists compose: the list [fs1 ++ fs2] accepts a message
    exactly when [fs1] and [fs2] both accept it, and a list accepts the
    same messages in whatever order its filters are written.  A list
    that holds match-from filters for two different senders accepts no
    message. *)
Theorem FilterMessage_lists_compose :
  forall (fs1 fs2 : list (option twisms.MessageFilter))
         (msg : option twisms.Message),
    twisms.FilterMessage (Some (twisms.mkMessageFilters (fs1 ++ fs2))) msg
    = twisms.FilterMessage (Some (twisms.mkMessageFilters fs1)) msg
      && twisms.FilterMessage (Some (twisms.mkMessageFilters fs2)) msg
    /\ (fs1 ≡ₚ fs2 ->
        twisms.FilterMessage (Some (twisms.mkMessageFilters fs1)) msg
        = twisms.FilterMessage (Some (twisms.mkMessageFilters fs2)) msg)
    /\ (forall a b : string,
          a <> b ->
          Some (twisms.mkMessageFilter (Some (twisms.MessageFilter_MatchFrom a)))
            ∈ fs1 ->
          Some (twisms.mkMessageFilter (Some (twisms.MessageFilter_MatchFrom b)))
            ∈ fs1 ->
          twisms.FilterMessage (Some (twisms.mkMessageFilters fs1)) msg = false).
Proof.
  intros fs1 fs2 msg. unfold twisms.FilterMessage. simpl.
  split; [apply filterLoop_app | split].
  - intros Hperm. apply bool_eq_iff. rewrite !filterLoop_Forall.
    rewrite !Forall_forall. setoid_rewrite Hperm. tauto.
  - intros a b Hab Ha Hb.
    destruct (twisms.filterLoop fs1 msg) eqn:Hall; [| reflexivity].
    apply filterLoop_Forall in Hall. rewrite Forall_forall in Hall.
    pose proof (Hall _ Ha) as Ha'. pose proof (Hall _ Hb) as Hb'.
    unfold satisfies in Ha', Hb'. simpl in Ha', Hb'. congruence.
Qed.

(** The filters for senders "A" and "B" together, against a message
    from "B". *)
Lemma FilterMessage_lists_compose_witness :
  "A" <> "B"
  /\ twisms.FilterMessage
       (Some (twisms.mkMessageFilters
          [Some (twisms.mkMessageFilter (Some (twisms.MessageFilter_MatchFrom "B")));
           Some (twisms.mkMessageFilter (Some (twisms.MessageFilter_MatchFrom "A")))]))
       msg_from_B = false.
Proof.
  assert (Hne : "A" <> "B") by discriminate.
  split; [exact Hne |].
  refine (proj2 (proj2 (FilterMessage_lists_compose
            [Some (twisms.mkMessageFilter (Some (twisms.MessageFilter_MatchFrom "B")));
             Some (twisms.mkMessageFilter (Some (twisms.MessageFilter_MatchFrom "A")))]
            [] msg_from_B)) "A" "B" Hne _ _).
  - right. left.
  - left.
Defined.

(** ** Replies *)

(** X9.  The message [NewReplyingMessage] builds for a message [m] has
    the endpoints of [m] swapped and the given body, and a reply to that
    reply has the endpoints of [m] again.  A sender without the fast
    path is handed exactly that message by [ReplyMessage]; on a nil
    message this path panics.  A sender with the fast path gets the
    message and the body as they are, nil or not, and its [SendMessage]
    is not called. *)
Theorem ReplyMessage_swaps_endpoints :
  forall (W : Type) (s : twisms_reply.MessageSender W)
         (m : twisms.Message) (body : string) (w : W),
    (exists r,
        twisms_reply.NewReplyingMessage (Some m) body = twid.Returns r
        /\ twisms.From r = twisms.To m /\ twisms.To r = twisms.From m
        /\ twisms.Body r = body
        /\ (forall body2, exists r2,
              twisms_reply.NewReplyingMessage (Some r) body2 = twid.Returns r2
              /\ twisms.From r2 = twisms.From m /\ twisms.To r2 = twisms.To m)
        /\ (twisms_reply.asMessageReplier s = None ->
            twisms_reply.ReplyMessage s (Some m) body w
            = twid.Returns (twisms_reply.SendMessage s (Some r) w)))
    /\ (twisms_reply.asMessageReplier s = None ->
        exists reason,
          twisms_reply.ReplyMessage s None body w = twid.Panics reason)
    /\ (forall reply msg,
          twisms_reply.asMessageReplier s = Some reply ->
          twisms_reply.ReplyMessage s msg body w = twid.Returns (reply msg body w)).
Proof.
  intros W s m body w. split; [| split].
  - eexists. split; [reflexivity |]. repeat split.
    + intros body2. eexists. split; [reflexivity |]. split; reflexivity.
    + intros Hnone. unfold twisms_reply.ReplyMessage. rewrite Hnone. reflexivity.
  - intros Hnone. unfold twisms_reply.ReplyMessage. rewrite Hnone. eauto.
  - intros reply msg Hsome. unfold twisms_reply.ReplyMessage. rewrite Hsome.
    reflexivity.
Qed.

(** A reply through the sender without the fast path goes to the
    sender of the message; through the other one nothing is sent. *)
Lemma ReplyMessage_swaps_endpoints_witness :
  twisms_reply.asMessageReplier plain_sender = None
  /\ (exists reason,
        twisms_reply.ReplyMessage plain_sender None "ok" ([] : journal)
        = twid.Panics reason)
  /\ twisms_reply.ReplyMessage plain_sender msg_from_B "ok" []
     = twid.Returns (None, ["send to B"])
  /\ twisms_reply.ReplyMessage replying_sender None "ok" []
     = twid.Returns (None, ["fast reply: ok"]).
Proof.
  split; [reflexivity |]. split; [| split].
  - exact (proj1 (proj2 (ReplyMessage_swaps_endpoints journal plain_sender
                           (twisms.mkMessage "B" "C" "hi") "ok" [])) eq_refl).
  - reflexivity.
  - exact (proj2 (proj2 (ReplyMessage_swaps_endpoints journal replying_sender
                           (twisms.mkMessage "B" "C" "hi") "ok" []))
                 _ None eq_refl).
Defined.

(** ** Phone numbers *)

Lemma all_bytes_nil p : all_bytes p "".
Proof. constructor. Qed.

Lemma all_bytes_cons p c s :
  all_bytes p (String c s) <-> p c = true /\ all_bytes p s.
Proof.
  unfold all_bytes. simpl. split.
  - intros H. inversion H; subst. auto.
  - intros [Hc Hs]. constructor; assumption.
Qed.

Lemma classk_true p s k :
  regexp.classk p s k = true <->
  exists c s', s = String c s' /\ p c = true /\ k s' = true.
Proof.
  destruct s as [| c s]; simpl.
  - split; [discriminate | intros (? & ? & [=] & _)].
  - rewrite andb_true_iff. split.
    + intros [Hp Hk]. eauto.
    + intros (c' & s' & [= <- <-] & Hp & Hk). auto.
Qed.

(** Up to [extra] bytes of the class, then the continuation. *)
Lemma optionalk_class p extra s k :
  regexp.optionalk (regexp.classk p) extra s k = true <->
  exists s1 s2, s = s1 +:+ s2 /\ String.length s1 <= extra
                /\ all_bytes p s1 /\ k s2 = true.
Proof.
  revert s. induction extra as [| e IH]; intros s; simpl.
  - split.
    + intros Hk. exists "", s. repeat split; auto using all_bytes_nil.
    + intros (s1 & s2 & -> & Hlen & _ & Hk).
      destruct s1; [exact Hk | simpl in Hlen; lia].
  - rewrite orb_true_iff, classk_true. split.
    + intros [(c & s' & -> & Hp & Hrest) | Hk].
      * apply IH in Hrest as (s1 & s2 & -> & Hlen & Hall & Hk).
        exists (String c s1), s2. repeat split; auto.
        -- simpl. lia.
        -- apply all_bytes_cons. auto.
      * exists "", s. repeat split; auto using all_bytes_nil. simpl. lia.
    + intros (s1 & s2 & -> & Hlen & Hall & Hk).
      destruct s1 as [| c s1]; [right; exact Hk | left].
      apply all_bytes_cons in Hall as [Hp Hall]. simpl in Hlen.
      exists c, (s1 +:+ s2). repeat split; auto.
      apply IH. exists s1, s2. repeat split; auto. lia.
Qed.

(** Between [min] and [min + extra] bytes of the class, then the
    continuation. *)
Lemma repeatk_class p min extra s k :
  regexp.repeatk (regexp.classk p) min extra s k = true <->
  exists s1 s2, s = s1 +:+ s2
                /\ min <= String.length s1 <= min + extra
                /\ all_bytes p s1 /\ k s2 = true.
Proof.
  revert s. induction min as [| n IH]; intros s; simpl.
  - rewrite optionalk_class. split.
    + intros (s1 & s2 & -> & Hlen & Hall & Hk). exists s1, s2.
      repeat split; auto; lia.
    + intros (s1 & s2 & -> & Hlen & Hall & Hk). exists s1, s2.
      repeat split; auto; lia.
  - rewrite classk_true. split.
    + intros (c & s' & -> & Hp & Hrest).
      apply IH in Hrest as (s1 & s2 & -> & Hlen & Hall & Hk).
      exists (String c s1), s2. repeat split; auto; try (simpl; lia).
      apply all_bytes_cons. auto.
    + intros (s1 & s2 & -> & Hlen & Hall & Hk).
      destruct s1 as [| c s1]; [simpl in Hlen; lia |].
      apply all_bytes_cons in Hall as [Hp Hall]. simpl in Hlen.
      exists c, (s1 +:+ s2). repeat split; auto.
      apply IH. exists s1, s2. repeat split; auto; lia.
Qed.

Lemma MatchString_e164Re number :
  regexp.MatchString twisms_reply.e164Re number = true <->
  exists d ds,
    number = String "+" (String d ds)
    /\ regexp.in_range "1" "9" d = true
    /\ all_bytes regexp.is_digit ds
    /\ 1 <= String.length ds <= 14.
Proof.
  unfold regexp.MatchString, twisms_reply.e164Re. simpl.
  change (fun (s : string) (k : string -> bool) => regexp.classk regexp.is_digit s k)
    with (regexp.classk regexp.is_digit).
  rewrite classk_true. split.
  - intros (c & s' & -> & Hc & Hrest). apply bool_decide_eq_true in Hc as ->.
    apply classk_true in Hrest as (d & s'' & -> & Hd & Hrest).
    apply (repeatk_class regexp.is_digit 1 13) in Hrest
      as (ds & rest & -> & Hlen & Hall & Hend).
    apply bool_decide_eq_true in Hend as ->. rewrite append_empty_r.
    exists d, ds. repeat split; auto; lia.
  - intros (d & ds & -> & Hd & Hall & Hlen).
    exists "+"%char, (String d ds). split; [reflexivity |].
    split; [apply bool_decide_eq_true; reflexivity |].
    apply classk_true. exists d, ds. repeat split; auto.
    apply (repeatk_class regexp.is_digit 1 13). exists ds, "".
    rewrite append_empty_r. repeat split; auto; try lia.
Qed.

(** X10.  [ValidatePhoneNumber] answers nil exactly for a plus sign, a
    digit from 1 to 9 and then one to fourteen more digits, with nothing
    before or after; for every other text it answers
    [ErrInvalidPhoneNumber].  An accepted number is 3 to 16 bytes
    long. *)
Theorem ValidatePhoneNumber_e164 :
  forall number : string,
    (twisms_reply.ValidatePhoneNumber number = None <->
     exists d ds,
       number = String "+" (String d ds)
       /\ regexp.in_range "1" "9" d = true
       /\ all_bytes regexp.is_digit ds
       /\ 1 <= String.length ds <= 14)
    /\ (twisms_reply.ValidatePhoneNumber number = None
        \/ twisms_reply.ValidatePhoneNumber number
           = Some twisms_reply.ErrInvalidPhoneNumber)
    /\ (twisms_reply.ValidatePhoneNumber number = None ->
        3 <= String.length number <= 16).
Proof.
  intros number.
  assert (Hiff : twisms_reply.ValidatePhoneNumber number = None <->
                 regexp.MatchString twisms_reply.e164Re number = true).
  { unfold twisms_reply.ValidatePhoneNumber.
    destruct (regexp.MatchString twisms_reply.e164Re number); simpl;
      split; congruence. }
  split; [rewrite Hiff; apply MatchString_e164Re | split].
  - unfold twisms_reply.ValidatePhoneNumber.
    destruct (regexp.MatchString twisms_reply.e164Re number); auto.
  - intros Hok. apply Hiff, MatchString_e164Re in Hok
      as (d & ds & -> & _ & _ & Hlen). simpl. lia.
Qed.

Example ValidatePhoneNumber_samples :
  twisms_reply.ValidatePhoneNumber "+15550001" = None
  /\ twisms_reply.ValidatePhoneNumber "+1234567890123456"
     = Some twisms_reply.ErrInvalidPhoneNumber
  /\ twisms_reply.ValidatePhoneNumber "+05550001"
     = Some twisms_reply.ErrInvalidPhoneNumber
  /\ twisms_reply.ValidatePhoneNumber "15550001"
     = Some twisms_reply.ErrInvalidPhoneNumber
  /\ twisms_reply.ValidatePhoneNumber "+1"
     = Some twisms_reply.ErrInvalidPhoneNumber
  /\ twisms_reply.ValidatePhoneNumber ""
     = Some twisms_reply.ErrInvalidPhoneNumber.
Proof. repeat split. Qed.

(** ** The webhook router *)

Section WebhookFacts.

Context {W : Type}.
Implicit Types (regs : list (twipi_webhook.WebhookRegisterer W)).

Lemma RegisterWebhook_closers regs (r : twipi_webhook.WebhookRouter W) :
  twipi_webhook.closers (foldl twipi_webhook.RegisterWebhook r regs)
  = twipi_webhook.closers r ++ regs.
Proof.
  revert r. induction regs as [| reg regs IH]; intros r; simpl.
  - rewrite app_nil_r. reflexivity.
  - rewrite IH. simpl. rewrite <- app_assoc. reflexivity.
Qed.

Lemma closeLoop_app regs1 regs2 (w : W) :
  twipi_webhook.closeLoop (regs1 ++ regs2) w
  = twipi_webhook.closeLoop regs2 (twipi_webhook.closeLoop regs1 w).
Proof.
  revert w. induction regs1 as [| reg regs1 IH]; intros w; [reflexivity |].
  simpl. destruct (twipi_webhook.Close reg w) as [err w1]. apply IH.
Qed.

End WebhookFacts.

(** X11.  After any run of [RegisterWebhook] calls on a new router,
    [Close] closes every registered webhook once, in the order of
    registration, also after one of them has failed, and answers nil
    whatever the webhooks answered. *)
Theorem WebhookRouter_Close_closes_all :
  forall (W : Type) (regs : list (twipi_webhook.WebhookRegisterer W))
         (extra : twipi_webhook.WebhookRegisterer W) (w : W),
    twipi_webhook.closers
      (foldl twipi_webhook.RegisterWebhook twipi_webhook.NewWebhookRouter regs)
    = regs
    /\ twipi_webhook.WebhookRouter_Close
         (foldl twipi_webhook.RegisterWebhook twipi_webhook.NewWebhookRouter regs) w
       = (None, twipi_webhook.closeLoop regs w)
    /\ twipi_webhook.WebhookRouter_Close
         (foldl twipi_webhook.RegisterWebhook twipi_webhook.NewWebhookRouter
            (regs ++ [extra])) w
       = (None, snd (twipi_webhook.Close extra (twipi_webhook.closeLoop regs w))).
Proof.
  intros W regs extra w. unfold twipi_webhook.WebhookRouter_Close.
  rewrite !RegisterWebhook_closers. simpl.
  split; [reflexivity | split; [reflexivity |]].
  rewrite closeLoop_app. simpl.
  destruct (twipi_webhook.Close extra (twipi_webhook.closeLoop regs w)).
  reflexivity.
Qed.

Example WebhookRouter_Close_after_failure :
  twipi_webhook.WebhookRouter_Close
    (foldl twipi_webhook.RegisterWebhook twipi_webhook.NewWebhookRouter
       [hook_failing; hook_fine]) []
  = (None, ["closed sms"; "closed voice"]).
Proof. reflexivity. Qed.

(** ** Starting the modules *)

Lemma visits_entries_map_to_list : visits_entries range_sorted.
Proof. intros hs name h. unfold range_sorted. apply elem_of_map_to_list. Qed.

Section StartFacts.

Variable TwipiConfig : Type.
Variable rangeHandlers : gmap string twid.Handler -> list (string * twid.Handler).
Implicit Types (l : twid.Loader TwipiConfig) (hs : list (string * twid.Handler)).

Lemma startHandler_ready l name h started :
  twid.checkTwipi TwipiConfig l = None ->
  twid.startHandler TwipiConfig l name h started
  = (started
       ++ (if twid.isMessageHandler h then [twid.MessageLoop name] else [])
       ++ (if twid.isCommandHandler h then [twid.CommandLoop name] else [])
       ++ [twid.HandlerStart name], None).
Proof.
  intros Hok. unfold twid.startHandler. rewrite Hok.
  destruct (twid.isMessageHandler h), (twid.isCommandHandler h); simpl;
    rewrite <- ?app_assoc; reflexivity.
Qed.

Lemma startLoop_ready l hs started :
  twid.checkTwipi TwipiConfig l = None ->
  twid.startLoop TwipiConfig l hs started
  = (started ++ flat_map (goroutines_of l) hs, twid.ReturnsWait).
Proof.
  intros Hok. revert started.
  induction hs as [| [name h] hs IH]; intros started; simpl.
  - rewrite app_nil_r. reflexivity.
  - unfold goroutines_of at 1. simpl.
    destruct (twid.isEnabled TwipiConfig l name); simpl; [| apply IH].
    rewrite (startHandler_ready l name h started Hok), IH.
    rewrite <- !app_assoc. reflexivity.
Qed.

Lemma startHandler_blocked l e name h started :
  twid.checkTwipi TwipiConfig l = Some e ->
  twid.startHandler TwipiConfig l name h started
  = if twid.isMessageHandler h || twid.isCommandHandler h
    then (started, Some e)
    else (started ++ [twid.HandlerStart name], None).
Proof.
  intros Hno. unfold twid.startHandler. rewrite Hno.
  destruct (twid.isMessageHandler h), (twid.isCommandHandler h); reflexivity.
Qed.

Lemma startLoop_blocked l e hs started :
  twid.checkTwipi TwipiConfig l = Some e ->
  (Exists (fun en => needs_twipi l en = true) hs ->
   snd (twid.startLoop TwipiConfig l hs started) = twid.ReturnsError e)
  /\ (Forall (fun en => needs_twipi l en = false) hs ->
      snd (twid.startLoop TwipiConfig l hs started) = twid.ReturnsWait)
  /\ (forall u, u ∈ fst (twid.startLoop TwipiConfig l hs started) ->
                u ∈ started \/ exists name, u = twid.HandlerStart name).
Proof.
  intros Hno. revert started.
  induction hs as [| [name h] hs IH]; intros started.
  - simpl. split; [intros H; inversion H | split; [reflexivity | auto]].
  - rewrite Exists_cons, Forall_cons. unfold needs_twipi at 1 3. simpl.
    destruct (twid.isEnabled TwipiConfig l name); simpl.
    + rewrite (startHandler_blocked l e name h started Hno).
      destruct (twid.isMessageHandler h || twid.isCommandHandler h).
      * simpl. split; [reflexivity | split; [intros [[=] _] | auto]].
      * destruct (IH (started ++ [twid.HandlerStart name])) as (Hex & Hall & Hin).
        split; [| split].
        -- intros [[=] | H]. auto.
        -- intros [_ H]. auto.
        -- intros u Hu. destruct (Hin u Hu) as [Hu' | Hu']; [| auto].
           apply elem_of_app in Hu' as [Hu' | Hu']; [auto |].
           apply list_elem_of_singleton in Hu'. eauto.
    + destruct (IH started) as (Hex & Hall & Hin). split; [| split].
      * intros [[=] | H]. auto.
      * intros [_ H]. auto.
      * exact Hin.
Qed.

Lemma in_goroutines_of l hs (u : twid.goroutine) :
  u ∈ flat_map (goroutines_of l) hs <->
  exists name h,
    (name, h) ∈ hs /\ twid.isEnabled TwipiConfig l name = true
    /\ (u = twid.HandlerStart name
        \/ (u = twid.MessageLoop name /\ twid.isMessageHandler h = true)
        \/ (u = twid.CommandLoop name /\ twid.isCommandHandler h = true)).
Proof.
  rewrite list_elem_of_In, in_flat_map. split.
  - intros ([name h] & Hin & Hu). apply list_elem_of_In in Hin, Hu.
    exists name, h. unfold goroutines_of in Hu. simpl in Hu.
    destruct (twid.isEnabled TwipiConfig l name); [| inversion Hu].
    split; [exact Hin | split; [reflexivity |]].
    apply elem_of_app in Hu as [Hu | Hu].
    { destruct (twid.isMessageHandler h); [| inversion Hu].
      apply list_elem_of_singleton in Hu. auto. }
    apply elem_of_app in Hu as [Hu | Hu].
    { destruct (twid.isCommandHandler h); [| inversion Hu].
      apply list_elem_of_singleton in Hu. auto. }
    apply list_elem_of_singleton in Hu. auto.
  - intros (name & h & Hin & Hon & Hu). exists (name, h).
    split; [apply list_elem_of_In; exact Hin |]. apply list_elem_of_In.
    unfold goroutines_of. simpl. rewrite Hon.
    destruct Hu as [-> | [[-> Hm] | [-> Hc]]].
    + rewrite !elem_of_app. right. right. left.
    + rewrite Hm. left.
    + rewrite Hc. rewrite !elem_of_app. right. left. left.
Qed.

(** X12.  With "twid" enabled and the transport and its message handler
    configured, [Start] reaches [errg.Wait].  It has then started the
    transport's update task first, the HTTP server when there is one,
    and for the modules: a [Start] goroutine for exactly the enabled
    ones, a message loop for exactly the enabled ones that handle
    messages, and a command loop for exactly the enabled ones that have
    a command; nothing is started for a disabled module. *)
Theorem Start_starts_enabled_modules :
  forall l : twid.Loader TwipiConfig,
    visits_entries rangeHandlers ->
    twid.isEnabled TwipiConfig l "twid" = true ->
    twid.checkTwipi TwipiConfig l = None ->
    twid.Start TwipiConfig rangeHandlers l
    = (twid.UpdateTwilio
         :: match twid.http TwipiConfig l with
            | Some srv => [twid.HTTPListenAndServe (twid.Addr srv)]
            | None => []
            end
         ++ flat_map (goroutines_of l)
              (rangeHandlers (twid.handlers TwipiConfig l)),
       twid.ReturnsWait)
    /\ (forall name,
          twid.HandlerStart name ∈ fst (twid.Start TwipiConfig rangeHandlers l)
          <-> is_Some (twid.handlers TwipiConfig l !! name)
              /\ twid.isEnabled TwipiConfig l name = true)
    /\ (forall name,
          twid.MessageLoop name ∈ fst (twid.Start TwipiConfig rangeHandlers l)
          <-> exists h, twid.handlers TwipiConfig l !! name = Some h
                        /\ twid.isEnabled TwipiConfig l name = true
                        /\ twid.isMessageHandler h = true)
    /\ (forall name,
          twid.CommandLoop name ∈ fst (twid.Start TwipiConfig rangeHandlers l)
          <-> exists h, twid.handlers TwipiConfig l !! name = Some h
                        /\ twid.isEnabled TwipiConfig l name = true
                        /\ twid.isCommandHandler h = true).
Proof.
  intros l Hrange Htwid Hok.
  assert (Hstart : twid.Start TwipiConfig rangeHandlers l
    = (twid.UpdateTwilio
         :: match twid.http TwipiConfig l with
            | Some srv => [twid.HTTPListenAndServe (twid.Addr srv)]
            | None => []
            end
         ++ flat_map (goroutines_of l)
              (rangeHandlers (twid.handlers TwipiConfig l)),
       twid.ReturnsWait)).
  { unfold twid.Start. rewrite Htwid. simpl. rewrite (startLoop_ready _ _ _ Hok).
    unfold twid.checkTwipi in Hok.
    destruct (twid.twipi TwipiConfig l); [| discriminate].
    destruct (twid.http TwipiConfig l); reflexivity. }
  split; [exact Hstart |]. rewrite Hstart. simpl.
  assert (Hmem : forall u,
    (u <> twid.UpdateTwilio) ->
    (forall addr, u <> twid.HTTPListenAndServe addr) ->
    u ∈ twid.UpdateTwilio
         :: match twid.http TwipiConfig l with
            | Some srv => [twid.HTTPListenAndServe (twid.Addr srv)]
            | None => []
            end
         ++ flat_map (goroutines_of l)
              (rangeHandlers (twid.handlers TwipiConfig l))
    <-> u ∈ flat_map (goroutines_of l)
              (rangeHandlers (twid.handlers TwipiConfig l))).
  { intros u Hu1 Hu2. rewrite elem_of_cons, elem_of_app.
    split; [| auto]. intros [Hu | [Hu | Hu]]; [congruence | | exact Hu].
    destruct (twid.http TwipiConfig l); [| inversion Hu].
    apply list_elem_of_singleton in Hu. destruct (Hu2 _ Hu). }
  split; [| split].
  - intros name. rewrite Hmem by discriminate. rewrite in_goroutines_of. split.
    + intros (n & h & Hin & Hon & [[= <-] | [[[=] _] | [[=] _]]]).
      apply Hrange in Hin. split; [eauto | exact Hon].
    + intros [[h Hh] Hon]. exists name, h. split; [apply Hrange; exact Hh | auto].
  - intros name. rewrite Hmem by discriminate. rewrite in_goroutines_of. split.
    + intros (n & h & Hin & Hon & [[=] | [[[= <-] Hm] | [[=] _]]]).
      apply Hrange in Hin. eauto.
    + intros (h & Hh & Hon & Hm). exists name, h.
      split; [apply Hrange; exact Hh | auto].
  - intros name. rewrite Hmem by discriminate. rewrite in_goroutines_of. split.
    + intros (n & h & Hin & Hon & [[=] | [[[=] _] | [[= <-] Hc]]]).
      apply Hrange in Hin. eauto.
    + intros (h & Hh & Hon & Hc). exists name, h.
      split; [apply Hrange; exact Hh | auto].
Qed.

(** X13.  With "twid" enabled and the transport or its message handler
    missing, [Start] returns the error that says so exactly when some
    enabled module handles messages or has a command, and otherwise
    reaches [errg.Wait]; either way it has started no message loop and
    no command loop. *)
Theorem Start_without_transport :
  forall (l : twid.Loader TwipiConfig) (e : error),
    twid.isEnabled TwipiConfig l "twid" = true ->
    twid.checkTwipi TwipiConfig l = Some e ->
    (Exists (fun en => needs_twipi l en = true)
            (rangeHandlers (twid.handlers TwipiConfig l)) ->
     snd (twid.Start TwipiConfig rangeHandlers l) = twid.ReturnsError e)
    /\ (Forall (fun en => needs_twipi l en = false)
               (rangeHandlers (twid.handlers TwipiConfig l)) ->
        snd (twid.Start TwipiConfig rangeHandlers l) = twid.ReturnsWait)
    /\ (forall name,
          (twid.MessageLoop name
             ∉ fst (twid.Start TwipiConfig rangeHandlers l))
          /\ (twid.CommandLoop name
                ∉ fst (twid.Start TwipiConfig rangeHandlers l))).
Proof.
  intros l e Htwid Hno. unfold twid.Start. rewrite Htwid. simpl.
  match goal with
  | |- context [twid.startLoop _ _ _ ?st] =>
      destruct (startLoop_blocked l e
                  (rangeHandlers (twid.handlers TwipiConfig l)) st Hno)
        as (Hex & Hall & Hin);
      assert (Hst : forall u, u ∈ st ->
                 u = twid.UpdateTwilio \/ exists a, u = twid.HTTPListenAndServe a)
  end.
  { intros u Hu. destruct (twid.twipi TwipiConfig l), (twid.http TwipiConfig l);
      simpl in Hu;
      repeat (apply elem_of_cons in Hu as [Hu | Hu]; [eauto |]);
      inversion Hu. }
  split; [exact Hex | split; [exact Hall |]].
  intros name. split; intros Hu; apply Hin in Hu as [Hu | [n Hu]];
    try discriminate; apply Hst in Hu as [Hu | [a Hu]]; discriminate.
Qed.

Lemma startLoop_error l hs started (e : error) :
  snd (twid.startLoop TwipiConfig l hs started) = twid.ReturnsError e ->
  twid.checkTwipi TwipiConfig l = Some e.
Proof.
  destruct (twid.checkTwipi TwipiConfig l) as [e0 |] eqn:Hcheck.
  - revert started. induction hs as [| [name h] hs IH]; intros started; simpl.
    + discriminate.
    + destruct (twid.isEnabled TwipiConfig l name); simpl; [| apply IH].
      rewrite (startHandler_blocked l e0 name h started Hcheck).
      destruct (twid.isMessageHandler h || twid.isCommandHandler h); simpl.
      * congruence.
      * apply IH.
  - rewrite (startLoop_ready l hs started Hcheck). discriminate.
Qed.

End StartFacts.

(** The loaded loader: everything is started for "discord". *)
Lemma Start_starts_enabled_modules_witness :
  visits_entries range_sorted
  /\ twid.isEnabled unit loader_ready "twid" = true
  /\ twid.checkTwipi unit loader_ready = None
  /\ (twid.HandlerStart "discord"
        ∈ fst (twid.Start unit range_sorted loader_ready)
      <-> is_Some (twid.handlers unit loader_ready !! "discord")
          /\ twid.isEnabled unit loader_ready "discord" = true).
Proof.
  split; [exact visits_entries_map_to_list |].
  split; [reflexivity | split; [reflexivity |]].
  exact (proj1 (proj2 (Start_starts_enabled_modules unit range_sorted loader_ready
                         visits_entries_map_to_list eq_refl eq_refl)) "discord").
Defined.

(** "discord" handles messages, and the transport is missing. *)
Lemma Start_without_transport_witness :
  twid.isEnabled unit loader_no_transport "twid" = true
  /\ twid.checkTwipi unit loader_no_transport
     = Some (errors_New "twipi is not configured")
  /\ Exists (fun en => needs_twipi loader_no_transport en = true)
            (range_sorted (twid.handlers unit loader_no_transport))
  /\ snd (twid.Start unit range_sorted loader_no_transport)
     = twid.ReturnsError (errors_New "twipi is not configured").
Proof.
  assert (Hex : Exists (fun en => needs_twipi loader_no_transport en = true)
                  (range_sorted (twid.handlers unit loader_no_transport))).
  { apply Exists_exists. exists ("discord", messaging_handler).
    split; [| reflexivity].
    apply visits_entries_map_to_list. reflexivity. }
  split; [reflexivity | split; [reflexivity | split; [exact Hex |]]].
  exact (proj1 (Start_without_transport unit range_sorted loader_no_transport
                  (errors_New "twipi is not configured") eq_refl eq_refl) Hex).
Defined.

(** ** What a loaded configuration leaves behind *)

Section LoadConfigWiring.

Variable TwipiConfig : Type.
Variable ParseMany : string -> string -> list twid.any -> error + twid.Parsed TwipiConfig.
Variable NewConfiguredServer : TwipiConfig -> error + twid.ConfiguredServer.
Variable EnvString_Value : string -> string.
Variable path_Join : string -> string -> string.
Variable rangeHandlers : gmap string twid.Handler -> list (string * twid.Handler).
Implicit Types (l : twid.Loader TwipiConfig).

Lemma bindLoop_foldl l srv (hs : list (string * twid.Handler))
    (acc : gmap string twid.Handler) (name : string) :
  Forall (fun en => twid.handlers TwipiConfig l !! en.1 = Some en.2) hs ->
  foldl (fun acc '(name, handler) =>
           if negb (twid.isEnabled TwipiConfig l name) then acc
           else if twid.isTwipiHandler handler
                then <[name := twid.BindTwipi handler srv]> acc
                else acc) acc hs !! name
  = match twid.handlers TwipiConfig l !! name with
    | Some h =>
        if twid.isEnabled TwipiConfig l name && twid.isTwipiHandler h
           && bool_decide (name ∈ hs.*1)
        then Some (twid.BindTwipi h srv)
        else acc !! name
    | None => acc !! name
    end.
Proof.
  intros Hall. revert acc.
  induction Hall as [| [n0 h0] hs Hhead _ IH]; intros acc.
  - simpl. destruct (twid.handlers TwipiConfig l !! name) as [h |]; [| reflexivity].
    rewrite andb_false_r. reflexivity.
  - rewrite fmap_cons. cbn [foldl fst snd] in *. rewrite IH. clear IH.
    destruct (twid.handlers TwipiConfig l !! name) as [h |] eqn:Hh.
    + destruct (decide (n0 = name)) as [-> | Hne].
      * assert (h0 = h) as -> by congruence.
        rewrite (bool_decide_eq_true_2 (name ∈ name :: hs.*1)) by left.
        rewrite andb_true_r.
        destruct (twid.isEnabled TwipiConfig l name); simpl;
          [| rewrite ?andb_false_l; reflexivity].
        destruct (twid.isTwipiHandler h); simpl; [| reflexivity].
        rewrite lookup_insert_eq. destruct (bool_decide (name ∈ hs.*1)); reflexivity.
      * assert (Hdec : bool_decide (name ∈ n0 :: hs.*1) = bool_decide (name ∈ hs.*1)).
        { apply bool_decide_ext. rewrite elem_of_cons. intuition congruence. }
        rewrite Hdec.
        destruct (twid.isEnabled TwipiConfig l n0); simpl; [| reflexivity].
        destruct (twid.isTwipiHandler h0); [| reflexivity].
        rewrite lookup_insert_ne by exact Hne. reflexivity.
    + destruct (twid.isEnabled TwipiConfig l n0); simpl; [| reflexivity].
      destruct (twid.isTwipiHandler h0); [| reflexivity].
      rewrite lookup_insert_ne by congruence. reflexivity.
Qed.

Lemma bindLoop_lookup l srv name :
  visits_entries rangeHandlers ->
  twid.bindLoop TwipiConfig rangeHandlers l srv !! name
  = offered (twid.isEnabled TwipiConfig l name) srv
      <$> twid.handlers TwipiConfig l !! name.
Proof.
  intros Hrange. unfold twid.bindLoop. rewrite bindLoop_foldl.
  - destruct (twid.handlers TwipiConfig l !! name) as [h |] eqn:Hh;
      [| reflexivity].
    rewrite bool_decide_eq_true_2, andb_true_r;
      [unfold offered; simpl;
       destruct (twid.isEnabled TwipiConfig l name && twid.isTwipiHandler h);
       reflexivity |].
    apply list_elem_of_fmap. exists (name, h). split; [reflexivity |].
    apply Hrange. exact Hh.
  - apply Forall_forall. intros [n h] Hin. apply Hrange. exact Hin.
Qed.

Lemma mountLoop_routes l (hs : list (string * twid.Handler)) (m : twid.Mux) :
  twid.routes
    (foldl (fun m '(name, handler) =>
              if negb (twid.isEnabled TwipiConfig l name) then m
              else match twid.HTTPPrefix handler with
                   | Some prefix => twid.Mux_Handle m (path_Join prefix "*") name
                   | None => m
                   end) m hs)
  = twid.routes m ++ flat_map (route_of path_Join l) hs.
Proof.
  revert m. induction hs as [| [name h] hs IH]; intros m; simpl.
  - rewrite app_nil_r. reflexivity.
  - rewrite IH. unfold route_of at 2. simpl.
    destruct (twid.isEnabled TwipiConfig l name); simpl; [| reflexivity].
    destruct (twid.HTTPPrefix h); simpl; [| reflexivity].
    rewrite <- app_assoc. reflexivity.
Qed.

Lemma route_of_same_enabled l l' en :
  twid.enabled TwipiConfig l = twid.enabled TwipiConfig l' ->
  route_of path_Join l en = route_of path_Join l' en.
Proof. intros H. unfold route_of, twid.isEnabled. rewrite H. reflexivity. Qed.

Ltac load_cases Hload :=
  unfold twid.LoadConfig in Hload;
  destruct (ParseMany _ _ _) as [perr | doc] eqn:Hparse; [discriminate Hload |];
  destruct (twid.isEnabled TwipiConfig (twid.setParsed TwipiConfig _ doc) "twipi")
    eqn:Hon;
  [ destruct (NewConfiguredServer (twid.parsed_Twipi TwipiConfig doc))
      as [serr | srv] eqn:Hsrv; [discriminate Hload |] | ];
  cbv zeta in Hload;
  case_bool_decide as Haddr;
  unfold twid.Mount_twipi in Hload; simpl in Hload.

(** X14.  When [LoadConfig] returns nil, the enabled map is the
    document's enable blocks laid over the earlier entries.  If "twipi"
    is then enabled, the transport built from the document's section is
    the loader's, and it has been bound to exactly the enabled modules
    that implement [TwipiHandler]; every other handler is as it was.
    If "twipi" is not enabled, no handler and no transport has
    changed. *)
Theorem LoadConfig_binds_enabled_modules :
  forall l (b configType : string) (l' : twid.Loader TwipiConfig),
    visits_entries rangeHandlers ->
    twid.LoadConfig TwipiConfig ParseMany NewConfiguredServer EnvString_Value
      path_Join rangeHandlers l b configType = twid.Returns (None, l') ->
    exists doc,
      ParseMany b configType
        (omap (fun '(_, handler) => twid.Config handler)
              (rangeHandlers (twid.handlers TwipiConfig l))) = inr doc
      /\ twid.enabled TwipiConfig l'
         = twid.parsed_enabledBlocks TwipiConfig doc ∪ twid.enabled TwipiConfig l
      /\ (twid.isEnabled TwipiConfig l' "twipi" = false ->
          twid.handlers TwipiConfig l' = twid.handlers TwipiConfig l
          /\ twid.twipi TwipiConfig l' = twid.twipi TwipiConfig l)
      /\ (twid.isEnabled TwipiConfig l' "twipi" = true ->
          exists srv,
            NewConfiguredServer (twid.parsed_Twipi TwipiConfig doc) = inr srv
            /\ twid.twipi TwipiConfig l' = Some srv
            /\ forall name,
                 twid.handlers TwipiConfig l' !! name
                 = offered (twid.isEnabled TwipiConfig l' name) srv
                     <$> twid.handlers TwipiConfig l !! name).
Proof.
  intros l b configType l' Hrange Hload. load_cases Hload.
  - (* twipi on, listen address set *)
    injection Hload as <-. exists doc. simpl.
    split; [reflexivity | split; [reflexivity | split]].
    + unfold twid.isEnabled in *. simpl in *. congruence.
    + intros _. exists srv. split; [exact Hsrv | split; [reflexivity |]].
      intros name. rewrite (bindLoop_lookup _ srv name Hrange). reflexivity.
  - (* twipi on, no listen address *)
    destruct (twid.mux TwipiConfig l) eqn:Hmux; [| discriminate Hload].
    injection Hload as <-. exists doc. simpl.
    split; [reflexivity | split; [reflexivity | split]].
    + unfold twid.isEnabled in *. simpl in *. congruence.
    + intros _. exists srv. split; [exact Hsrv | split; [reflexivity |]].
      intros name. rewrite (bindLoop_lookup _ srv name Hrange). reflexivity.
  - (* twipi off, listen address set *)
    destruct (twid.twipi TwipiConfig l) eqn:Htw; injection Hload as <-;
      exists doc; simpl;
      (split; [reflexivity | split; [reflexivity | split]];
       [ intros _; auto
       | unfold twid.isEnabled in *; simpl in *; congruence ]).
  - (* twipi off, no listen address *)
    destruct (twid.twipi TwipiConfig l) eqn:Htw.
    + destruct (twid.mux TwipiConfig l) eqn:Hmux; [| discriminate Hload].
      injection Hload as <-. exists doc. simpl.
      split; [reflexivity | split; [reflexivity | split]];
        [ intros _; auto
        | unfold twid.isEnabled in *; simpl in *; congruence ].
    + injection Hload as <-. exists doc. simpl.
      split; [reflexivity | split; [reflexivity | split]];
        [ intros _; auto
        | unfold twid.isEnabled in *; simpl in *; congruence ].
Qed.

(** X15.  When [LoadConfig] returns nil and a listen address is
    configured, the loader has an HTTP server on that address and a mux
    whose routes are, in the order of the visit, one route
    [path.Join(prefix, "*")] for each enabled module that serves HTTP,
    and after all of them the mount of the transport at "/" when there
    is a transport. *)
Theorem LoadConfig_mounts_transport_last :
  forall l (b configType : string) (l' : twid.Loader TwipiConfig),
    twid.LoadConfig TwipiConfig ParseMany NewConfiguredServer EnvString_Value
      path_Join rangeHandlers l b configType = twid.Returns (None, l') ->
    twid.Config_Twid_HTTP_ListenAddr TwipiConfig l' <> "" ->
    exists m,
      twid.mux TwipiConfig l' = Some m
      /\ twid.routes m
         = flat_map (route_of path_Join l')
             (rangeHandlers (twid.handlers TwipiConfig l'))
           ++ match twid.twipi TwipiConfig l' with
              | Some _ => [("/", "twipi")]
              | None => []
              end
      /\ twid.http TwipiConfig l'
         = Some (twid.mkServer
                   (EnvString_Value (twid.Config_Twid_HTTP_ListenAddr TwipiConfig l'))).
Proof.
  intros l b configType l' Hload Hset. load_cases Hload.
  - injection Hload as <-. simpl. eexists. split; [reflexivity |].
    split; [| reflexivity]. simpl. unfold twid.mountLoop.
    rewrite mountLoop_routes. reflexivity.
  - destruct (twid.mux TwipiConfig l); [| discriminate Hload].
    injection Hload as <-. simpl in Hset. tauto.
  - destruct (twid.twipi TwipiConfig l) eqn:Htw; injection Hload as <-; simpl;
      rewrite ?Htw; (eexists; split; [reflexivity |]); (split; [| reflexivity]);
      simpl; unfold twid.mountLoop; rewrite mountLoop_routes; simpl;
      rewrite ?app_nil_r; reflexivity.
  - destruct (twid.twipi TwipiConfig l) eqn:Htw.
    + destruct (twid.mux TwipiConfig l); [| discriminate Hload].
      injection Hload as <-. simpl in Hset. tauto.
    + injection Hload as <-. simpl in Hset. tauto.
Qed.

(** X16.  When [LoadConfig] returns an error, it is the parser's error
    wrapped as "failed to parse config" or the transport constructor's
    error wrapped as "failed to create twipi server"; in both cases no
    handler has been bound and the loader's transport, mux and HTTP
    server are what they were. *)
Theorem LoadConfig_error_wires_nothing :
  forall l (b configType : string) (err : error) (l1 : twid.Loader TwipiConfig),
    twid.LoadConfig TwipiConfig ParseMany NewConfiguredServer EnvString_Value
      path_Join rangeHandlers l b configType = twid.Returns (Some err, l1) ->
    ((exists e,
         ParseMany b configType
           (omap (fun '(_, handler) => twid.Config handler)
                 (rangeHandlers (twid.handlers TwipiConfig l))) = inl e
         /\ err = errors_Wrap e "failed to parse config" /\ l1 = l)
     \/ (exists e doc,
           ParseMany b configType
             (omap (fun '(_, handler) => twid.Config handler)
                   (rangeHandlers (twid.handlers TwipiConfig l))) = inr doc
           /\ NewConfiguredServer (twid.parsed_Twipi TwipiConfig doc) = inl e
           /\ err = errors_Wrap e "failed to create twipi server"
           /\ twid.enabled TwipiConfig l1
              = twid.parsed_enabledBlocks TwipiConfig doc
                  ∪ twid.enabled TwipiConfig l))
    /\ twid.handlers TwipiConfig l1 = twid.handlers TwipiConfig l
    /\ twid.twipi TwipiConfig l1 = twid.twipi TwipiConfig l
    /\ twid.mux TwipiConfig l1 = twid.mux TwipiConfig l
    /\ twid.http TwipiConfig l1 = twid.http TwipiConfig l.
Proof.
  intros l b configType err l1 Hload. unfold twid.LoadConfig in Hload.
  destruct (ParseMany _ _ _) as [perr | doc] eqn:Hparse.
  - injection Hload as <- <-. split; [left; eauto | repeat split].
  - destruct (twid.isEnabled TwipiConfig (twid.setParsed TwipiConfig l doc) "twipi").
    + destruct (NewConfiguredServer (twid.parsed_Twipi TwipiConfig doc))
        as [serr | srv] eqn:Hsrv.
      * injection Hload as <- <-.
        split; [right; exists serr, doc; repeat split; auto | repeat split].
      * cbv zeta in Hload. unfold twid.Mount_twipi in Hload.
        case_bool_decide; simpl in Hload;
          repeat match type of Hload with
                 | context [match ?x with _ => _ end] => destruct x
                 end;
          discriminate Hload.
    + cbv zeta in Hload. unfold twid.Mount_twipi in Hload.
      case_bool_decide; simpl in Hload;
        repeat match type of Hload with
               | context [match ?x with _ => _ end] => destruct x
               end;
        discriminate Hload.
Qed.


(** X18.  A loader that has just been built refuses to start.  After a
    [LoadConfig] on it that returned nil, [Start] returns the error
    "twid is not enabled" exactly when the document's enable block for
    "twid" is missing or false. *)
Theorem Start_after_LoadConfig :
  forall (modules : list twid.Module) (b configType : string)
         (l' : twid.Loader TwipiConfig),
    twid.Start TwipiConfig rangeHandlers (twid.NewLoader TwipiConfig modules)
    = ([], twid.ReturnsError (errors_New "twid is not enabled"))
    /\ (twid.LoadConfig TwipiConfig ParseMany NewConfiguredServer EnvString_Value
          path_Join rangeHandlers (twid.NewLoader TwipiConfig modules)
          b configType = twid.Returns (None, l') ->
        exists doc,
          ParseMany b configType
            (omap (fun '(_, handler) => twid.Config handler)
                  (rangeHandlers
                     (twid.handlers TwipiConfig
                        (twid.NewLoader TwipiConfig modules)))) = inr doc
          /\ (snd (twid.Start TwipiConfig rangeHandlers l')
              = twid.ReturnsError (errors_New "twid is not enabled")
              <-> twid.parsed_enabledBlocks TwipiConfig doc !! "twid"
                  <> Some true)).
Proof.
  intros modules b configType l'. split; [reflexivity |].
  intros Hload.
  assert (Hen : exists doc,
    ParseMany b configType
      (omap (fun '(_, handler) => twid.Config handler)
            (rangeHandlers
               (twid.handlers TwipiConfig (twid.NewLoader TwipiConfig modules))))
    = inr doc
    /\ twid.enabled TwipiConfig l'
       = twid.parsed_enabledBlocks TwipiConfig doc ∪ ∅).
  { load_cases Hload;
      repeat match type of Hload with
             | context [match ?x with _ => _ end] => destruct x
             end;
      try discriminate Hload; injection Hload as <-; eauto. }
  destruct Hen as (doc & Hparse & Hen). exists doc. split; [exact Hparse |].
  rewrite (right_id_L ∅ (∪)) in Hen.
  unfold twid.Start, twid.isEnabled. rewrite Hen.
  destruct (twid.parsed_enabledBlocks TwipiConfig doc !! "twid") as [[|] |];
    simpl; [| split; [discriminate | reflexivity]
            | split; [discriminate | reflexivity]].
  split; [| congruence]. intros Herr. exfalso.
  apply startLoop_error in Herr. unfold twid.checkTwipi in Herr.
  destruct (twid.twipi TwipiConfig l') as [srv |]; [| discriminate].
  destruct (twid.Message_set srv); discriminate.
Qed.

End LoadConfigWiring.

(** ** The registry, once more *)

Lemma legal_or_reserved (m : twid.Module) :
  legal m \/ twid.Name m ∈ twid.illegalNames.
Proof.
  unfold legal. destruct (decide (twid.Name m ∈ twid.illegalNames)); auto.
Qed.

(** X19.  A run of registrations panics exactly when one of the modules
    has a reserved name; the panic is that of the first such module and
    its message is "illegal module name: " followed by the name. *)
Theorem RegisterAll_panics_on_first_reserved :
  forall (mods init : list twid.Module) (reason : string),
    twid.RegisterAll mods init = twid.Panics reason <->
    exists pre m post,
      mods = pre ++ m :: post
      /\ Forall (fun m' => twid.Name m' ∉ twid.illegalNames) pre
      /\ twid.Name m ∈ twid.illegalNames
      /\ reason = "illegal module name: " +:+ twid.Name m.
Proof.
  intros mods. induction mods as [| m mods IH]; intros init reason.
  - simpl. split; [discriminate |].
    intros (pre & m & post & Heq & _). destruct pre; discriminate.
  - simpl. destruct (legal_or_reserved m) as [Hlegal | Hres].
    + assert (Hreg : twid.Register m init = twid.Returns (init ++ [m]))
        by (apply Register_returns; auto).
      rewrite Hreg, IH. split.
      * intros (pre & m' & post & -> & Hpre & Hm' & ->).
        exists (m :: pre), m', post. repeat split; auto.
      * intros (pre & m' & post & Heq & Hpre & Hm' & ->).
        destruct pre as [| p pre]; simpl in Heq; injection Heq as -> ->.
        -- destruct (Hlegal Hm').
        -- apply Forall_cons in Hpre as [_ Hpre]. exists pre, m', post. auto.
    + rewrite (Register_panics m init Hres). split.
      * intros [= <-]. exists [], m, mods. repeat split; auto.
      * intros (pre & m' & post & Heq & Hpre & Hm' & ->).
        destruct pre as [| p pre]; simpl in Heq; injection Heq as -> ->.
        -- reflexivity.
        -- apply Forall_cons in Hpre as [Hp _]. destruct (Hp Hres).
Qed.

(** X20.  The handler map of a new loader has an entry for exactly the
    names of the modules it was given, enabled or not, and has nothing
    enabled; when the names are pairwise different it has as many
    entries as there are modules. *)
Theorem NewLoader_handlers_cover_modules :
  forall (TwipiConfig : Type) (modules : list twid.Module),
    (forall name,
        is_Some (twid.handlers TwipiConfig (twid.NewLoader TwipiConfig modules)
                   !! name)
        <-> name ∈ twid.Name <$> modules)
    /\ twid.enabled TwipiConfig (twid.NewLoader TwipiConfig modules) = ∅
    /\ (NoDup (twid.Name <$> modules) ->
        size (twid.handlers TwipiConfig (twid.NewLoader TwipiConfig modules))
        = length modules).
Proof.
  intros T modules.
  assert (Hdom : forall name,
    is_Some (twid.handlers T (twid.NewLoader T modules) !! name)
    <-> name ∈ twid.Name <$> modules).
  { intros name. unfold twid.NewLoader. simpl.
    rewrite NewLoader_handlers_foldl, lookup_empty, list_elem_of_fmap.
    destruct (last (filter (fun m => twid.Name m = name) modules)) as [m |] eqn:Hl.
    - split; [intros _ | eauto].
      apply last_Some_elem_of, list_elem_of_filter in Hl as [Hn Hin]. eauto.
    - split; [intros [? [=]] |]. intros (m & -> & Hin).
      apply last_None in Hl.
      assert (Hm : m ∈ filter (fun m' => twid.Name m' = twid.Name m) modules)
        by (apply list_elem_of_filter; auto).
      rewrite Hl in Hm. inversion Hm. }
  split; [exact Hdom | split; [reflexivity |]].
  intros Hnd.
  assert (Hset : dom (twid.handlers T (twid.NewLoader T modules))
                 = list_to_set (twid.Name <$> modules)).
  { apply set_eq. intros name.
    rewrite elem_of_dom, elem_of_list_to_set. apply Hdom. }
  rewrite <- size_dom, Hset, size_list_to_set by exact Hnd.
  apply length_fmap.
Qed.

(** Two modules with different names. *)
Lemma NewLoader_handlers_cover_modules_witness :
  NoDup (twid.Name <$> [mod_discord; mod_alpha])
  /\ size (twid.handlers unit (twid.NewLoader unit [mod_discord; mod_alpha])) = 2.
Proof.
  assert (Hnd : NoDup (twid.Name <$> [mod_discord; mod_alpha])).
  { simpl. apply NoDup_cons. split.
    - intros Hin. apply list_elem_of_singleton in Hin. discriminate.
    - apply NoDup_singleton. }
  split; [exact Hnd |].
  exact (proj2 (proj2 (NewLoader_handlers_cover_modules unit
                         [mod_discord; mod_alpha])) Hnd).
Defined.

(** ** Sample runs of the further properties *)

(** "+15550001" is accepted and has nine bytes. *)
Lemma ValidatePhoneNumber_e164_witness :
  twisms_reply.ValidatePhoneNumber "+15550001" = None
  /\ 3 <= String.length "+15550001" <= 16.
Proof.
  split; [reflexivity |].
  exact (proj2 (proj2 (ValidatePhoneNumber_e164 "+15550001")) eq_refl).
Defined.

(** A fresh loader with "discord" and "web", loaded with the document
    that enables "web" only: "web" is not a [TwipiHandler] and
    "discord" is not enabled, so no handler is bound. *)
Lemma LoadConfig_binds_enabled_modules_witness :
  visits_entries range_sorted
  /\ exists l',
       twid.LoadConfig unit parse_web server_ok (fun s => s) join_slash
         range_sorted (twid.NewLoader unit [mod_discord; mod_web]) "" "toml"
       = twid.Returns (None, l')
       /\ twid.twipi unit l' = Some (twid.mkConfiguredServer true)
       /\ twid.handlers unit l' !! "discord" = Some messaging_handler
       /\ twid.handlers unit l' !! "web" = Some web_handler.
Proof.
  split; [exact visits_entries_map_to_list |].
  eexists. split; [vm_compute; reflexivity |].
  destruct (LoadConfig_binds_enabled_modules unit parse_web server_ok
              (fun s => s) join_slash range_sorted
              (twid.NewLoader unit [mod_discord; mod_web]) "" "toml" _
              visits_entries_map_to_list eq_refl)
    as (doc & Hdoc & _ & _ & Hon).
  destruct (Hon eq_refl) as (srv & Hsrv & Htw & Hbound).
  injection Hsrv as <-.
  split; [exact Htw |]. split; [exact (Hbound "discord") | exact (Hbound "web")].
Defined.

(** The same load: the route of "web" comes first, the transport's
    mount last. *)
Lemma LoadConfig_mounts_transport_last_witness :
  exists l' m,
    twid.LoadConfig unit parse_web server_ok (fun s => s) join_slash
      range_sorted (twid.NewLoader unit [mod_discord; mod_web]) "" "toml"
    = twid.Returns (None, l')
    /\ twid.Config_Twid_HTTP_ListenAddr unit l' <> ""
    /\ twid.mux unit l' = Some m
    /\ twid.routes m = [("/web/*", "web"); ("/", "twipi")].
Proof.
  eexists.
  assert (Hset : ":8080" <> "") by discriminate.
  destruct (LoadConfig_mounts_transport_last unit parse_web server_ok
              (fun s => s) join_slash range_sorted
              (twid.NewLoader unit [mod_discord; mod_web]) "" "toml" _
              eq_refl Hset)
    as (m & Hmux & Hroutes & _).
  exists m. split; [vm_compute; reflexivity |].
  split; [exact Hset | split; [exact Hmux | exact Hroutes]].
Defined.

(** The parser fails: the loader is what it was. *)
Lemma LoadConfig_error_wires_nothing_witness :
  twid.LoadConfig unit parse_broken server_ok (fun s => s) join_slash
    range_sorted (twid.NewLoader unit [mod_discord]) "" "toml"
  = twid.Returns (Some (errors_Wrap (errors_New "bad document")
                          "failed to parse config"),
                  twid.NewLoader unit [mod_discord])
  /\ twid.twipi unit (twid.NewLoader unit [mod_discord]) = None.
Proof.
  split; [reflexivity |].
  exact (proj1 (proj2 (proj2 (LoadConfig_error_wires_nothing unit parse_broken
           server_ok (fun s => s) join_slash range_sorted
           (twid.NewLoader unit [mod_discord]) "" "toml" _ _ eq_refl)))).
Defined.

(** The document enables "twid": after the load [Start] does not
    refuse. *)
Lemma Start_after_LoadConfig_witness :
  exists l',
    twid.LoadConfig unit parse_web server_ok (fun s => s) join_slash
      range_sorted (twid.NewLoader unit [mod_discord; mod_web]) "" "toml"
    = twid.Returns (None, l')
    /\ snd (twid.Start unit range_sorted l')
       <> twid.ReturnsError (errors_New "twid is not enabled").
Proof.
  eexists. split; [vm_compute; reflexivity |].
  destruct (proj2 (Start_after_LoadConfig unit parse_web server_ok (fun s => s)
                     join_slash range_sorted [mod_discord; mod_web] "" "toml" _)
                  eq_refl)
    as (doc & Hdoc & Hiff).
  injection Hdoc as <-. intros Herr. apply Hiff in Herr. apply Herr. reflexivity.
Defined.
